(* ===== verification/_CoqProject ===== *)
-Q . S2P
Prelude.v
PyStr.v
FS.v
Glob.v
License.v
Sre.v
Regex.v
Template.v
Substitute.v
Run.v
Process.v
Examples.v
