(* ===== verification/Prelude.v ===== *)
(** * A verification development for [code_license_replacer.py]

    The program (src/code_license_replacer.py, a 38-line Python 2 script of
    the biffbamblammogame repository) rewrites the leading [/** ... */]
    comment of every C++ source file of the project tree into a standard
    license header.  It runs in four steps:

    - discovery (lines 6-12): fourteen [glob.glob] calls, one per
      (directory, extension) pair, concatenated into [allFileNames];
    - license loading (lines 14-21): [open("./code_license.txt")] and
      [readlines], then a check [licenseTextLines is None] that prints a
      diagnostic and calls [exit(-1)];
    - the license text (lines 24-26): [" * " + line.strip() + "\n"] per
      line;
    - the loop (lines 29-37): for each file, [open(fileName, 'r+')],
      [read], [re.sub(r"^\W*/\*\*(.+?)\*/", header, text, count=1,
      flags=re.DOTALL)] with [header = "/**\n * " + basename + "\n * \n" +
      licenseText + " */"], [seek(0)], [write], [truncate], [close].
      Any exception ends the script.

    Files of this development, in dependency order:
    - [Prelude.v] (this file): [text] (a Python 2 [str], [list ascii]) and
      its literal notation [⟪"..."⟫] in [py_scope], the byte classes of
      [sre] and [str.strip], substring tests, the exception type [py_exc],
      the error monad [res] (stdpp [MRet]/[MBind]), the hint database
      [py], the tactics [unfold_lits], [by_eval], [not_in_lit], and list
      lemmas shared by the other files.
    - [PyStr.v], [Module PyStr]: [file.readlines], [str.strip],
      [os.path.basename], [os.path.join] of Python 2.7.
    - [FS.v], [Module FS]: the file system as a stdpp [gmap] from paths to
      regular files (bytes, read/write permission) and directories (entries
      in [os.listdir] order); [open] in modes ['r'] and ['r+'], whose
      [IOError] carries the [errno] of the system call ([ENOENT],
      [EISDIR], [EACCES]) and [os.strerror] of it, and the file
      object's [read], [seek], [write], [truncate], [close] as functions on
      a record [fobj]; the relation [same_shape] (same directories, same
      paths) with its [Equivalence] and [Proper] instances, and the
      preorder [data_only] (only file contents differ).
    - [Glob.v], [Module Glob]: [os.path.split], [fnmatch], [glob.glob0],
      [glob.glob1], [glob.iglob] (with its recursion on magic directory
      parts, under fuel) and [glob.glob] of Python 2.7, and
      [all_file_names] (the list [allFileNames]).
    - [License.v], [Module License]: the loop of lines 24-26 and the
      replacement string of line 32.
    - [Sre.v], [Module Sre]: the compiled [sre] program of the pattern of
      line 32 ([license_pattern]) and a model of [_sre.c]'s backtracking
      matcher for its opcodes (AT_BEGINNING, greedy REPEAT_ONE, lazy
      MIN_REPEAT_ONE, LITERAL, MARK), with [search] over start positions.
    - [Regex.v], [Module Regex]: [sre_parse.parse] and [sre_compile] for
      the constructs of that pattern; compiling the pattern string of
      line 32 gives [license_pattern] and one group.
    - [Template.v], [Module Template]: [re.sub] treats its replacement as a
      template: the literal fast path, [sre_parse.parse_template] (its
      tokenizer with one byte of lookahead, escapes, group references,
      octal escapes, errors) and [expand_template].
    - [Substitute.v], [Module Substitute]: [re.sub] with [count=1]
      ([re_sub]) and line 32 for one file ([rewrite_text]: the pattern
      compiled by [Regex.re_compile], then [re_sub]).
    - [Run.v], [Module Run]: the script: [load_license] (lines 15-17),
      [rewrite_file] (lines 30-37), [process_files] (the loop, stopping at
      the first exception) and [run] (the whole script: outcome, final file
      system, standard output).  The driver lemmas are proved in
      [Section Driver] for any per-file transformation [xform], with
      [Section Stable] assuming only that outputs are fixed points.
    - [Process.v], [Module Process]: what the shell sees of the process:
      the exit status ([exit_status]: 0, 1 for an uncaught exception, the
      low byte of [exit]'s argument) and the last line of the traceback
      ([exc_line]: [IOError: [Errno n] strerror: repr(path)], built with
      [py_repr], the [repr] of a Python 2 [str] of [stringobject.c]).
    - [Examples.v], [Module Examples]: concrete runs (the specification's
      examples, behaviours the specification does not describe) and the
      instances at which the general theorems are applied.

    What the theorems show:
    - [PyStr]: [readlines] is exactly the split of a text into lines (a
      list is [readlines s] if and only if it concatenates to [s], each
      element is a line and all but the last end with a newline); [strip]
      removes exactly the surrounding whitespace; [basename p] is exactly
      the part of [p] after its last slash.
    - [License]: the header, read back by lines, is the open line, the
      name line, a blank line, one stripped line per license line, [" */"];
      a license file with Windows line endings gives the same
      [licenseText] ([license_text_crlf]), since [strip] removes the ["\r"].
    - [Sre]: the matcher on the compiled pattern computes exactly a
      declarative description of the match ([leading_block]): the LAST
      ["/**"] inside the leading run of non-word bytes that has a ["*/"] at
      least one byte after it, and the FIRST such ["*/"].
    - [Substitute]: the rewrite of one file when it has a leading block
      and when it has none; idempotence when no license line holds ["*/"]
      or a backslash and the base name has a word byte and no backslash,
      and its failure in general when a license line holds ["*/"] (every
      further rewrite makes the file longer); a group reference [\2] in the
      license raises on every file with a block and leaves the others
      unchanged; the boundary of the pattern: a text of fewer than six
      bytes is never changed and ["/**x*/"] is ([rewrite_text_short]).
    - [Template]: [parse_template] finishes within its fuel.
    - [Glob]: [allFileNames] equals the declarative list of candidates and
      has no duplicates.
    - [FS]: [seek(0); write(t); truncate()] leaves exactly [t]; the
      length and content of a file after [write] at any position.
    - [Run]: a missing license raises [IOError] and touches nothing; the
      diagnostic branch is dead; a completed run rewrote exactly the found
      files; an aborted run has a processed prefix and an untouched
      suffix; the run completes under stated conditions; a completed run
      meets the contract of the specification (each found file holds the
      header and the text after its block, or is unchanged when it has
      none: [run_contract]); a second run changes nothing under the
      idempotence conditions; whatever its ending, the run changes only
      file contents ([data_only]).
    - [Process]: the exit status is 0 or 1, and 0 exactly when the run can
      complete ([can_finish]: license readable, every found file a
      readable and writable regular file whose rewrite does not raise); a
      missing license gives status 1, an untouched tree, no output, and the
      traceback line [IOError: [Errno 2] No such file or directory:
      './code_license.txt'].
    - [Examples]: the instances at which the theorems are applied, and
      concrete runs kept as regression examples of the findings: the
      specification's example; an empty [/***/] comment makes the match
      delete code; the greedy [\W*]; backslashes in the license are
      interpreted ([\n], [\1]) or raise ([\2]); a directory named [*.h]
      aborts the run; a source file with Windows line endings gets a header
      with bare newlines (mixed line endings).

    Fuel: [Template.parse_template] runs with fuel [S (length source)],
    since every iteration of its loop consumes at least one byte of the
    template ([parse_template_total]); [Regex.re_parse] with
    [S (length pattern)] and [Glob.glob] with [S (length pattern)] for the
    recursion on magic directory parts, each call being on a strictly
    shorter text ([Regex.parse_seq_fuel], [Glob.iglob_fuel_mono]: more fuel
    changes nothing).  The [sre] repeat loops are bounded by the length of
    the subject text; every other recursion is structural.

    Not modelled: the parts of the [re] parser and compiler the script's
    pattern does not use (character classes, counted repeats,
    alternation, other anchors and escapes) and the INFO prefix of the
    compiled program, which only speeds up the search; [fnmatch]'s
    [[...]] sets, absent from the script's glob patterns; text-mode newline
    translation (none on POSIX); write errors such as a full disk;
    symbolic links; the frame lines of the traceback Python prints for an
    uncaught exception (file, line number and source line of each frame,
    which depend on where the interpreter and the script are installed;
    its last line is modelled); errno values other than those [open]
    gives on this tree; concurrent access, which the
    specification excludes.  These are the reasons the components
    "Operating system and file layer" and "Python re parser and compiler"
    stay partly modelled: what is left of them is either library code the
    script never reaches with its constant pattern and glob strings, or
    behaviour of the operating system outside the script (links, disks,
    other processes) that the specification rules out; every line of the
    script itself, lines 6-37, is translated. *)

From Stdlib Require Export Ascii String.
From stdpp Require Export base list gmap strings.

Declare Scope py_scope.
Delimit Scope py_scope with py.
Open Scope py_scope.

(** A Python 2 [str]: a sequence of bytes. *)
Abbreviation text := (list ascii).

(** A Python string literal, written with Rocq string syntax. *)
Notation "⟪ s ⟫" := (list_ascii_of_string s%string)
  (at level 0, s at level 0, format "⟪ s ⟫") : py_scope.

(** ** Byte classes of [sre] (byte strings, no LOCALE/UNICODE flag) *)

Definition in_range (lo hi : nat) (c : ascii) : bool :=
  (lo <=? nat_of_ascii c) && (nat_of_ascii c <=? hi).

(** [\w]: [[a-zA-Z0-9_]] ([SRE_IS_WORD] on bytes). *)
Definition is_word (c : ascii) : bool :=
  in_range 97 122 c || in_range 65 90 c || in_range 48 57 c
  || bool_decide (c = "_"%char).

(** [str.isspace] and [str.strip()] of Python 2: space, \t \n \v \f \r. *)
Definition is_space (c : ascii) : bool :=
  bool_decide (c = " "%char) || in_range 9 13 c.

Definition is_digit (c : ascii) : bool := in_range 48 57 c.
Definition is_octdigit (c : ascii) : bool := in_range 48 55 c.

Definition newline : ascii := "010"%char.
Definition backslash : ascii := "092"%char.

(** ** Substrings by position *)

(** [p] occurs in [s] at index [i]. *)
Definition has_at (s : text) (i : nat) (p : text) : bool :=
  bool_decide (take (length p) (drop i s) = p).

(** [p in s], Python's substring test. *)
Definition contains (p s : text) : bool :=
  existsb (λ i, has_at s i p) (seq 0 (S (length s))).

(** The pair [a b] occurs nowhere in [t]. *)
Definition no_pair (a b : ascii) (t : text) : Prop := ∀ i, has_at t i [a; b] = false.

(** ** Exceptions and the error monad *)

Inductive py_exc :=
  | IOError (errno : nat) (path : text)  (** [open] failed, with the [errno] of the system call *)
  | SreError (msg : text)        (** [sre_constants.error] raised by [re.sub] *)
  | IndexErr (msg : text).       (** [IndexError] raised while parsing a template *)

#[export] Instance py_exc_eq_dec : EqDecision py_exc.
Proof. solve_decision. Defined.

Inductive res (A : Type) :=
  | Ok (a : A)
  | Err (e : py_exc).
Arguments Ok {A} a.
Arguments Err {A} e.

#[export] Instance res_ret : MRet res := @Ok.
#[export] Instance res_bind : MBind res :=
  λ _ _ f r, match r with Ok a => f a | Err e => Err e end.

Definition res_of_option {A} (e : py_exc) (o : option A) : res A :=
  match o with Some a => Ok a | None => Err e end.

Create HintDb py discriminated.

(** ** Shared lemmas *)

Lemma has_at_nil (s : text) i : has_at s i [] = true.
Proof. unfold has_at. by apply bool_decide_eq_true. Qed.

Lemma drop_lookup_cons (s : text) i c rest :
  drop i s = c :: rest ↔ s !! i = Some c ∧ drop (S i) s = rest.
Proof.
  rewrite <-(Nat.add_0_r i) at 2. rewrite <-lookup_drop.
  replace (S i) with (i + 1) by lia. rewrite <-drop_drop.
  destruct (drop i s); simpl; split; intros; simplify_eq; naive_solver.
Qed.

Lemma has_at_cons (s : text) i c p :
  has_at s i (c :: p) = true ↔ s !! i = Some c ∧ has_at s (S i) p = true.
Proof.
  unfold has_at. rewrite !bool_decide_eq_true. simpl.
  destruct (drop i s) as [|c' rest] eqn:E.
  - split; [done|]. intros [Hi _].
    rewrite <-(Nat.add_0_r i), <-lookup_drop, E in Hi. done.
  - apply drop_lookup_cons in E as [-> <-]. simpl. split.
    + intros [= -> ->]. done.
    + intros [[= ->] ->]. done.
Qed.

Lemma has_at_two (s : text) i a b :
  has_at s i [a; b] = true ↔ s !! i = Some a ∧ s !! S i = Some b.
Proof. rewrite !has_at_cons, has_at_nil. naive_solver. Qed.

Lemma has_at_lookup_Some (s : text) i p :
  p ≠ [] → has_at s i p = true → i < length s.
Proof.
  destruct p as [|c p]; [done|]. intros _ [Hi _]%has_at_cons.
  by apply lookup_lt_Some in Hi.
Qed.

(** [p] occurs at [length u + i] of [u ++ s] exactly when it occurs at [i]
    of [s]. *)
Lemma has_at_app_r (u s : text) i p :
  has_at (u ++ s) (length u + i) p = has_at s i p.
Proof. unfold has_at. by rewrite <-drop_drop, drop_app_length. Qed.

Lemma has_at_app_l (u s : text) i p :
  i + length p ≤ length u → has_at (u ++ s) i p = has_at u i p.
Proof.
  intros Hle. unfold has_at. rewrite drop_app_le by lia.
  rewrite take_app_le; [done|]. rewrite length_drop. lia.
Qed.

Lemma has_at_prefix (p s : text) : has_at (p ++ s) 0 p = true.
Proof. unfold has_at. apply bool_decide_eq_true. by rewrite drop_0, take_app_length. Qed.

Lemma contains_spec (p s : text) :
  contains p s = true ↔ ∃ i, has_at s i p = true.
Proof.
  unfold contains. rewrite existsb_exists. split.
  - intros (i & _ & Hi). eauto.
  - intros [i Hi]. destruct (decide (i ≤ length s)).
    + exists i. split; [|done]. apply in_seq. lia.
    + exists 0. split; [apply in_seq; lia|].
      unfold has_at in Hi. apply bool_decide_eq_true in Hi.
      rewrite drop_ge in Hi by lia. rewrite take_nil in Hi. subst p.
      apply has_at_nil.
Qed.

(** The least witness of a decidable property above a bound. *)
Lemma least_above_or_none (P : nat → Prop) `{∀ n, Decision (P n)} a n :
  (∃ j0, a ≤ j0 ≤ a + n ∧ P j0 ∧ ∀ j', a ≤ j' < j0 → ¬ P j') ∨
  (∀ j', a ≤ j' ≤ a + n → ¬ P j').
Proof.
  induction n as [|n [(j0 & ? & ? & ?)|Hno]].
  - destruct (decide (P a)).
    + left. exists a. split; [lia|]. split; [done|]. lia.
    + right. intros j' ?. by replace j' with a by lia.
  - left. exists j0. split; [lia|]. done.
  - destruct (decide (P (a + S n))).
    + left. exists (a + S n). split; [lia|]. split; [done|].
      intros j' ?. apply Hno. lia.
    + right. intros j' ?. destruct (decide (j' = a + S n)) as [->|]; [done|].
      apply Hno. lia.
Qed.

Lemma least_above (P : nat → Prop) `{∀ n, Decision (P n)} a j :
  a ≤ j → P j → ∃ j0, a ≤ j0 ≤ j ∧ P j0 ∧ ∀ j', a ≤ j' < j0 → ¬ P j'.
Proof.
  intros Ha Hj. destruct (least_above_or_none P a (j - a)) as [(j0 & ? & ?)|Hno].
  - exists j0. split; [lia|]. done.
  - exfalso. apply (Hno j); [lia|done].
Qed.

(** Unfold Python literals [⟪"..."⟫] into lists of bytes. *)
Ltac unfold_lits := cbn [list_ascii_of_string] in *.

(** A decidable proposition about concrete data, by evaluation. *)
Ltac by_eval := apply (bool_decide_unpack _); vm_compute; exact I.

Lemma head_rev {A} (l : list A) : head (rev l) = last l.
Proof. induction l as [|x l IH] using rev_ind; [done|]. by rewrite rev_unit, last_snoc. Qed.

Lemma last_rev {A} (l : list A) : last (rev l) = head l.
Proof. rewrite <-(rev_involutive l) at 2. by rewrite head_rev. Qed.

(** [c ∉ ⟪"..."⟫] for a byte [c] that the literal does not hold. *)
Ltac not_in_lit :=
  unfold newline, backslash in *; unfold_lits;
  rewrite list_elem_of_In; cbn [In];
  let H := fresh in
  intros H; repeat (destruct H as [H|H]; [discriminate H|]); exact H.

(** ** Two-byte patterns across concatenations *)

Lemma has_at_short (t : text) i p :
  p ≠ [] → length t < i + length p → has_at t i p = false.
Proof.
  intros Hp Hl. destruct p; [done|]. unfold has_at. apply bool_decide_eq_false_2. intros Ht.
  apply (f_equal length) in Ht. rewrite length_take, length_drop in Ht. cbn [length] in *. lia.
Qed.

Lemma has_at_two_app (x y : text) i a b :
  has_at (x ++ y) i [a; b] = true →
  has_at x i [a; b] = true ∨ has_at y (i - length x) [a; b] = true ∨
  (last x = Some a ∧ head y = Some b).
Proof.
  rewrite !has_at_two, last_lookup, head_lookup. intros [Ha Hb].
  destruct (decide (S i < length x)).
  - left. rewrite !lookup_app_l in Ha, Hb by lia. done.
  - destruct (decide (length x ≤ i)).
    + right; left. rewrite !lookup_app_r in Ha, Hb by lia.
      replace (S i - length x) with (S (i - length x)) in Hb by lia. done.
    + right; right. rewrite lookup_app_l in Ha by lia. rewrite lookup_app_r in Hb by lia.
      replace (S i - length x) with 0 in Hb by lia.
      split; [|done]. rewrite <-Ha. f_equal. lia.
Qed.

Lemma no_pair_app a b (x y : text) :
  no_pair a b x → no_pair a b y → (last x ≠ Some a ∨ head y ≠ Some b) →
  no_pair a b (x ++ y).
Proof.
  intros Hx Hy Hxy i. destruct (has_at (x ++ y) i _) eqn:E; [|done].
  destruct (has_at_two_app _ _ _ _ _ E) as [H|[H|[H1 H2]]].
  - by rewrite Hx in H.
  - by rewrite Hy in H.
  - naive_solver.
Qed.

Lemma no_pair_infix a b (u t v : text) : no_pair a b (u ++ t ++ v) → no_pair a b t.
Proof.
  intros H i. specialize (H (length u + i)). rewrite has_at_app_r in H.
  destruct (decide (i + 2 ≤ length t)).
  - by rewrite has_at_app_l in H.
  - apply has_at_short; [done|]. simpl. lia.
Qed.

Lemma no_pair_contains a b (t : text) : no_pair a b t ↔ contains [a; b] t = false.
Proof.
  rewrite <-not_true_iff_false, contains_spec. unfold no_pair. split.
  - intros H [i Hi]. by rewrite H in Hi.
  - intros H i. destruct (has_at t i _) eqn:E; [|done]. exfalso. eauto.
Qed.

Lemma no_pair_nil a b : no_pair a b [].
Proof. intros i. apply has_at_short; [done|]. simpl. lia. Qed.

Lemma no_pair_not_in a b (t : text) : a ∉ t → no_pair a b t.
Proof.
  intros Ha i. destruct (has_at t i _) eqn:E; [|done].
  apply has_at_two in E as [E _]. exfalso. apply Ha. by eapply list_elem_of_lookup_2.
Qed.

#[export] Hint Resolve no_pair_nil no_pair_not_in : py.

Lemma lookup_app_add {A} (u v : list A) i : (u ++ v) !! (length u + i) = v !! i.
Proof. rewrite lookup_app_r by lia. f_equal. lia. Qed.

Lemma no_pair_not_in_r a b (t : text) : b ∉ t → no_pair a b t.
Proof.
  intros Hb i. destruct (has_at t i _) eqn:E; [|done].
  apply has_at_two in E as [_ E]. exfalso. apply Hb. by eapply list_elem_of_lookup_2.
Qed.

Lemma concat_keys_in {A K} (cls : A → K) (ks : list K) (ls : list (list A)) x :
  Forall2 (λ k l, ∀ x, x ∈ l → cls x = k) ks ls → x ∈ concat ls → cls x ∈ ks.
Proof.
  induction 1 as [|k l ks ls Hk _ IH]; cbn [concat]; [set_solver|].
  rewrite elem_of_app, elem_of_cons. intros [Hx|Hx]; [left; by apply Hk|right; by apply IH].
Qed.

(** Lists whose elements carry distinct keys concatenate without
    duplicates. *)
Lemma NoDup_concat_keys {A K} (cls : A → K) (ks : list K) (ls : list (list A)) :
  Forall2 (λ k l, NoDup l ∧ ∀ x, x ∈ l → cls x = k) ks ls → NoDup ks → NoDup (concat ls).
Proof.
  intros H. induction H as [|k l ks ls [Hl Hk] Hrest IH]; intros Hks; [constructor|].
  apply NoDup_cons in Hks as [Hk' Hks]. cbn [concat]. apply NoDup_app.
  split; [done|]. split; [|by apply IH].
  intros x Hx Hx'. apply Hk'. rewrite <-(Hk x Hx). apply (concat_keys_in cls ks ls); [|done].
  by eapply Forall2_impl; [done|]; intros ?? [_ ?].
Qed.

Lemma Forall2_map_diag {A B C} (R : B → C → Prop) (g : A → B) (h : A → C) (l : list A) :
  Forall (λ x, R (g x) (h x)) l → Forall2 R (map g l) (map h l).
Proof. induction 1; constructor; auto. Qed.

Lemma NoDup_map_inj {A B} (g : A → B) (l : list A) :
  (∀ x y, g x = g y → x = y) → NoDup l → NoDup (map g l).
Proof.
  intros Hg. induction 1 as [|x l Hx _ IH]; constructor; [|done].
  intros (y & Hy & Hin)%list_elem_of_In%in_map_iff.
  apply Hg in Hy as ->. by apply Hx, list_elem_of_In.
Qed.

Lemma NoDup_filter_list {A} (p : A → bool) (l : list A) : NoDup l → NoDup (List.filter p l).
Proof. rewrite !NoDup_ListNoDup. apply List.NoDup_filter. Qed.

Lemma bind_Ok_inv {A B} (r : res A) (g : A → res B) b :
  (r ≫= g) = Ok b ↔ ∃ a, r = Ok a ∧ g a = Ok b.
Proof. destruct r as [a|e]; cbn; naive_solver. Qed.

Lemma bind_Err_inv {A B} (r : res A) (g : A → res B) e :
  (r ≫= g) = Err e ↔ r = Err e ∨ ∃ a, r = Ok a ∧ g a = Err e.
Proof. destruct r as [a|e']; cbn; naive_solver. Qed.
