(* ===== verification/PyStr.v ===== *)
(** The Python 2 built-ins on byte strings that
    src/code_license_replacer.py calls: [file.readlines()] (line 17),
    [str.strip()] (line 26), [os.path.basename] (line 32) and
    [os.path.join] (inside [glob.glob], lines 6-12).  Each is written as
    the CPython 2.7 implementation computes it, and the lemmas describe
    its result.  [crlf] writes a text with Windows line endings, to state
    how [readlines] and [strip] treat such a file. *)

From S2P Require Import Prelude.

Module PyStr.

(** ** [file.readlines()] *)

(** The lines of [s], each with its terminating newline; the last line
    has none when [s] does not end with a newline. *)
Fixpoint readlines (s : text) : list text :=
  match s with
  | [] => []
  | c :: s' =>
      if bool_decide (c = newline) then [c] :: readlines s'
      else match readlines s' with
           | [] => [[c]]
           | l :: ls => (c :: l) :: ls
           end
  end.

(** ** [str.strip()] with no argument *)

(** Skip leading whitespace ([i] of [do_strip]). *)
Fixpoint lstrip (s : text) : text :=
  match s with
  | [] => []
  | c :: s' => if is_space c then lstrip s' else s
  end.

(** [s[i:j]] where [i] skips leading and [j] trailing whitespace. *)
Definition strip (s : text) : text := rev (lstrip (rev (lstrip s))).

(** ** [posixpath.basename] and [posixpath.join] *)

(** [p.rfind(c)]: the last index of [c] in [p], from offset [i]. *)
Fixpoint rfind_from (c : ascii) (p : text) (i : nat) : option nat :=
  match p with
  | [] => None
  | x :: p' =>
      match rfind_from c p' (S i) with
      | Some j => Some j
      | None => if bool_decide (x = c) then Some i else None
      end
  end.

(** [i = p.rfind('/') + 1; return p[i:]] *)
Definition basename (p : text) : text :=
  let i := match rfind_from "/" p 0 with Some j => S j | None => 0 end in
  drop i p.

(** [join(a, b)]: [b] if absolute; [a + b] if [a] is empty or ends with a
    slash; [a + "/" + b] otherwise. *)
Definition join (a b : text) : text :=
  if bool_decide (head b = Some "/"%char) then b
  else if bool_decide (a = []) || bool_decide (last a = Some "/"%char) then a ++ b
  else a ++ "/"%char :: b.

(** The carriage return, which [str.strip] removes as whitespace. *)
Definition carriage_return : ascii := "013"%char.

(** The same bytes with every newline written as ["\r\n"], as a file
    saved with Windows line endings holds them. *)
Definition crlf (s : text) : text :=
  concat (map (λ c, if bool_decide (c = newline) then [carriage_return; newline] else [c]) s).

(** A line: bytes without newline, followed by a newline unless it is the
    last line of the file. *)
Definition line_shape (l : text) : Prop :=
  ∃ ln, newline ∉ ln ∧ (l = ln ++ [newline] ∨ (l = ln ∧ ln ≠ [])).

(** What [readlines] promises: lines whose concatenation is the text,
    each a line, every one but the last ending with a newline. *)
Definition line_split (s : text) (ls : list text) : Prop :=
  concat ls = s ∧ Forall line_shape ls ∧
  ∀ i l, ls !! i = Some l → S i < length ls → last l = Some newline.

(** ** Lemmas *)

(** [readlines] loses nothing: joining the lines gives back the file. *)
Lemma readlines_concat (s : text) : concat (readlines s) = s.
Proof.
  induction s as [|c s IH]; simpl; [done|].
  case_bool_decide; simpl; [by rewrite IH|].
  destruct (readlines s) as [|l ls]; simpl in *; by rewrite <-IH.
Qed.

Lemma readlines_shape (s : text) : Forall line_shape (readlines s).
Proof.
  induction s as [|c s IH]; simpl; [constructor|].
  case_bool_decide as Hc.
  - constructor; [|done]. exists []. subst c. split; [set_solver|]. by left.
  - destruct (readlines s) as [|l ls]; constructor.
    + exists [c]. split; [set_solver|]. by right.
    + done.
    + apply Forall_cons_1 in IH as [(ln & Hn & Hl) _].
      exists (c :: ln). split; [set_solver|].
      destruct Hl as [->| [-> ?]]; [by left|by right].
    + by apply Forall_cons_1 in IH as [_ ?].
Qed.

(** Every line but the last ends with a newline. *)
Lemma readlines_newline_end (s : text) i l :
  readlines s !! i = Some l → S i < length (readlines s) → last l = Some newline.
Proof.
  revert i l. induction s as [|c s IH]; intros i l; simpl; [done|].
  case_bool_decide as Hc.
  - destruct i as [|i]; simpl; [intros [= <-] _; by subst|].
    intros Hl ?. apply (IH i); [done|lia].
  - destruct (readlines s) as [|l' ls] eqn:E; simpl.
    + destruct i; simpl; [lia|done].
    + destruct i as [|i]; simpl.
      * intros [= <-] ?. rewrite last_cons.
        specialize (IH 0 l' eq_refl ltac:(simpl; lia)). by rewrite IH.
      * intros Hl ?. apply (IH (S i)); [done|simpl; lia].
Qed.

Lemma lstrip_spec (s : text) :
  ∃ a, s = a ++ lstrip s ∧ Forall (λ c, is_space c = true) a ∧
       ∀ c, head (lstrip s) = Some c → is_space c = false.
Proof.
  induction s as [|c s (a & Ha & Hsp & Hh)]; simpl.
  - exists []. split; [done|]. split; [constructor|done].
  - destruct (is_space c) eqn:E.
    + exists (c :: a). split; [simpl; by rewrite <-Ha|]. split; [by constructor|done].
    + exists []. split; [done|]. split; [constructor|]. by intros ? [= <-].
Qed.

(** [strip] removes exactly the surrounding whitespace: the text is
    whitespace, the stripped text, whitespace; and the stripped text
    neither starts nor ends with whitespace. *)
Lemma strip_split (s : text) :
  ∃ a b, s = a ++ strip s ++ b ∧
    Forall (λ c, is_space c = true) a ∧ Forall (λ c, is_space c = true) b ∧
    (∀ c, head (strip s) = Some c → is_space c = false) ∧
    (∀ c, last (strip s) = Some c → is_space c = false).
Proof.
  destruct (lstrip_spec s) as (a & Ha & Hsa & Hha).
  destruct (lstrip_spec (rev (lstrip s))) as (b & Hb & Hsb & Hhb).
  unfold strip. exists a, (rev b). split.
  { rewrite Ha at 1. f_equal. rewrite <-rev_app_distr, <-Hb. by rewrite rev_involutive. }
  split; [done|]. split; [by apply Forall_rev|]. split.
  - intros c Hc. rewrite head_rev in Hc. apply Hha.
    by rewrite <-last_rev, Hb, last_app, Hc.
  - intros c Hc. rewrite last_rev in Hc. by apply Hhb.
Qed.

Lemma lstrip_spaces (w y : text) :
  Forall (λ c, is_space c = true) w → lstrip (w ++ y) = lstrip y.
Proof. induction 1 as [|c w Hc _ IH]; [done|]. cbn [app lstrip]. by rewrite Hc. Qed.

Lemma lstrip_app (x y : text) :
  lstrip x ≠ [] → lstrip (x ++ y) = lstrip x ++ y.
Proof.
  induction x as [|c x IH]; [done|]. cbn [app lstrip].
  destruct (is_space c); [exact IH|done].
Qed.

(** Trailing whitespace makes no difference to [strip]. *)
Lemma strip_app_spaces (x w : text) :
  Forall (λ c, is_space c = true) w → strip (x ++ w) = strip x.
Proof.
  intros Hw. unfold strip. destruct (decide (lstrip x = [])) as [Hx|Hx].
  - assert (lstrip (x ++ w) = []) as ->; [|by rewrite Hx].
    induction x as [|c x IH]; cbn [app lstrip] in *.
    + by rewrite <-(app_nil_r w), lstrip_spaces.
    + destruct (is_space c); [by apply IH|done].
  - rewrite lstrip_app, rev_app_distr, lstrip_spaces by (done || by apply Forall_rev).
    done.
Qed.

Lemma crlf_cons c (s : text) :
  crlf (c :: s) = (if bool_decide (c = newline) then [carriage_return; newline] else [c]) ++ crlf s.
Proof. done. Qed.

Lemma crlf_app (x y : text) : crlf (x ++ y) = crlf x ++ crlf y.
Proof. unfold crlf. by rewrite map_app, concat_app. Qed.

Lemma crlf_no_newline (l : text) : newline ∉ l → crlf l = l.
Proof.
  induction l as [|c l IH]; intros Hn; [done|]. unfold crlf in *. cbn [map concat].
  rewrite bool_decide_eq_false_2 by set_solver. cbn [app]. f_equal. apply IH. set_solver.
Qed.

(** Reading a file with Windows line endings gives the same lines, each
    with ["\r"] before its newline. *)
Lemma readlines_crlf (s : text) : readlines (crlf s) = map crlf (readlines s).
Proof.
  induction s as [|c s IH]; [done|]. rewrite crlf_cons. case_bool_decide as Hc.
  - subst c. cbn [app readlines]. rewrite (bool_decide_eq_false_2 (carriage_return = newline))
      by done. rewrite bool_decide_eq_true_2, IH by done. done.
  - cbn [app readlines]. rewrite bool_decide_eq_false_2, IH by done.
    cbn [readlines].
    destruct (readlines s) as [|l ls]; cbn [map]; rewrite crlf_cons, bool_decide_eq_false_2 by done;
      done.
Qed.

(** A line of a Windows file strips to the line of the Unix file. *)
Lemma strip_crlf_line (l : text) : line_shape l → strip (crlf l) = strip l.
Proof.
  intros (ln & Hn & [->| [-> _]]); [|by rewrite crlf_no_newline].
  rewrite crlf_app, crlf_no_newline by done.
  change (crlf [newline]) with ([carriage_return] ++ [newline]).
  rewrite app_assoc, !strip_app_spaces by (repeat constructor). done.
Qed.

Lemma readlines_line (x r : text) :
  newline ∉ x → readlines (x ++ [newline] ++ r) = (x ++ [newline]) :: readlines r.
Proof.
  induction x as [|c x IH]; intros Hx; [done|].
  change ((c :: x) ++ [newline] ++ r) with (c :: (x ++ [newline] ++ r)).
  cbn [readlines]. rewrite bool_decide_eq_false_2 by set_solver.
  rewrite IH by set_solver. done.
Qed.

Lemma readlines_last (x : text) : newline ∉ x → x ≠ [] → readlines x = [x].
Proof.
  induction x as [|c x IH]; intros Hx Hne; [done|]. simpl.
  rewrite bool_decide_eq_false_2 by set_solver.
  destruct x as [|c' x]; [done|]. rewrite IH by set_solver. done.
Qed.

Lemma is_space_newline : is_space newline = true.
Proof. done. Qed.

(** A stripped line of [readlines] holds no newline. *)
Lemma strip_line_no_newline (l : text) : line_shape l → newline ∉ strip l.
Proof.
  intros (ln & Hln & Hl) Hin.
  destruct (strip_split l) as (a & b & Hs & _ & _ & _ & Hlast).
  destruct Hl as [->|[-> _]].
  - destruct b as [|y b _] using rev_ind.
    + rewrite app_nil_r in Hs. set (u := strip (ln ++ [newline])) in *.
      assert (last (a ++ u) = Some newline) as Hl by (rewrite <-Hs; apply last_snoc).
      rewrite last_app in Hl. destruct (last u) as [y|] eqn:E.
      * injection Hl as ->. specialize (Hlast _ eq_refl). by rewrite is_space_newline in Hlast.
      * apply last_None in E. rewrite E in Hin. set_solver.
    + rewrite !app_assoc in Hs. apply app_inj_tail in Hs as [Hs _].
      apply Hln. rewrite Hs. set_solver.
  - apply Hln. rewrite Hs at 1. set_solver.
Qed.

Lemma rfind_from_None c (p : text) i : rfind_from c p i = None → c ∉ p.
Proof.
  revert i. induction p as [|x p IH]; intros i; simpl; [set_solver|].
  destruct (rfind_from c p (S i)) eqn:E; [done|]. case_bool_decide; [done|].
  intros _. apply IH in E. set_solver.
Qed.

Lemma rfind_from_Some c (p : text) i j :
  rfind_from c p i = Some j → i ≤ j ∧ c ∉ drop (S (j - i)) p.
Proof.
  revert i. induction p as [|x p IH]; intros i; simpl; [done|].
  destruct (rfind_from c p (S i)) as [j'|] eqn:E.
  - intros [= <-]. apply IH in E as [? Hd]. split; [lia|].
    by replace (j' - i) with (S (j' - S i)) by lia.
  - case_bool_decide; [|done]. intros [= <-]. split; [lia|].
    rewrite Nat.sub_diag. simpl. by apply rfind_from_None in E.
Qed.

(** a base name holds no slash and ends the path it comes from. *)
Lemma basename_split (p : text) :
  "/"%char ∉ basename p ∧ ∃ d, p = d ++ basename p.
Proof.
  unfold basename. split.
  - destruct (rfind_from "/" p 0) as [j|] eqn:E.
    + apply rfind_from_Some in E as [_ Hd]. by rewrite Nat.sub_0_r in Hd.
    + rewrite drop_0. by apply (rfind_from_None _ _ 0).
  - eexists. symmetry. apply take_drop.
Qed.

(** C24: [strip] removes exactly the surrounding whitespace: the text is
    whitespace, the stripped text, whitespace; and the stripped text
    neither starts nor ends with whitespace. *)
Theorem strip_spec (s : text) :
  ∃ a b, s = a ++ strip s ++ b ∧
    Forall (λ c, is_space c = true) a ∧ Forall (λ c, is_space c = true) b ∧
    (∀ c, head (strip s) = Some c → is_space c = false) ∧
    (∀ c, last (strip s) = Some c → is_space c = false).
Proof. apply strip_split. Qed.

(** [readlines] is the one split of the text into lines. *)
Lemma line_split_readlines (s : text) (ls : list text) : line_split s ls → ls = readlines s.
Proof.
  revert s. induction ls as [|l ls IH]; intros s (Hc & Hsh & Hend); cbn [concat] in Hc;
    [by subst|].
  apply Forall_cons in Hsh as [(ln & Hn & [->| [-> Hne]]) Hsh]; subst s.
  - rewrite <-app_assoc, readlines_line by done. f_equal. apply IH.
    split; [done|]. split; [done|]. intros i l' Hi Hlt. apply (Hend (S i)); [done|cbn [length]; lia].
  - destruct ls as [|l' ls].
    + by rewrite app_nil_r, readlines_last.
    + exfalso. apply Hn, last_Some_elem_of, (Hend 0); [done|cbn [length]; lia].
Qed.

Lemma rfind_from_Some_at c (p : text) i j : rfind_from c p i = Some j → p !! (j - i) = Some c.
Proof.
  revert i. induction p as [|x p IH]; intros i; cbn [rfind_from]; [done|].
  destruct (rfind_from c p (S i)) as [j'|] eqn:E.
  - intros [= <-]. apply rfind_from_Some in E as Hle. destruct Hle as [Hle _].
    replace (j' - i) with (S (j' - S i)) by lia. by apply IH.
  - case_bool_decide; [|done]. intros [= <-]. subst x. by rewrite Nat.sub_diag.
Qed.

(** What precedes the base name is empty or ends with a slash. *)
Lemma basename_dir (p : text) :
  ∃ d, p = d ++ basename p ∧ (d = [] ∨ last d = Some "/"%char).
Proof.
  unfold basename. destruct (rfind_from "/" p 0) as [j|] eqn:E.
  - apply rfind_from_Some_at in E. rewrite Nat.sub_0_r in E.
    exists (take j p ++ ["/"%char]). split; [rewrite <-app_assoc; cbn [app]; by rewrite take_drop_middle|].
    right. apply last_snoc.
  - exists []. split; [by rewrite drop_0|by left].
Qed.

Lemma slash_tail (d l b : text) :
  (d ++ l = [] ∨ last (d ++ l) = Some "/"%char) → "/"%char ∉ l ++ b → l = [].
Proof.
  intros [Hd|Hd] Hb; destruct l as [|x l]; try done; exfalso.
  - by apply app_eq_nil in Hd as [_ ?].
  - apply Hb, elem_of_app. left. apply last_app_Some in Hd as [Hd|[Hd _]].
    + by apply last_Some_elem_of.
    + rewrite last_cons in Hd. by destruct (last l).
Qed.

(** Two splits of a path into a directory part (empty or ending with a
    slash) and a slash-free tail have the same tail. *)
Lemma slash_split_unique (d1 b1 d2 b2 : text) :
  d1 ++ b1 = d2 ++ b2 → "/"%char ∉ b1 → "/"%char ∉ b2 →
  (d1 = [] ∨ last d1 = Some "/"%char) → (d2 = [] ∨ last d2 = Some "/"%char) → b1 = b2.
Proof.
  intros E Hb1 Hb2 Hd1 Hd2. destruct (app_eq_app _ _ _ _ E) as [l [[-> ->]|[-> ->]]].
  - by rewrite (slash_tail d2 l b1 Hd1 Hb2).
  - by rewrite (slash_tail d1 l b2 Hd2 Hb1).
Qed.

(** C23: [readlines] is exactly the split of the file into lines: a list
    of texts is the result of [readlines s] if and only if its
    concatenation is [s], each element is a line (no newline inside, a
    newline at its end unless it is the last, non-empty text), and every
    element but the last ends with a newline. *)
Theorem readlines_spec (s : text) (ls : list text) : line_split s ls ↔ ls = readlines s.
Proof.
  split; [apply line_split_readlines|]. intros ->.
  split; [apply readlines_concat|]. split; [apply readlines_shape|]. apply readlines_newline_end.
Qed.

(** C25: [os.path.basename p] is exactly the part of [p] after its last
    slash: [b] is [basename p] if and only if [b] holds no slash and [p]
    is [d ++ b] with [d] empty or ending with a slash. *)
Theorem basename_spec (p b : text) :
  ("/"%char ∉ b ∧ ∃ d, p = d ++ b ∧ (d = [] ∨ last d = Some "/"%char)) ↔ b = basename p.
Proof.
  split.
  - intros [Hb (d & Hp & Hd)]. destruct (basename_dir p) as (d' & Hp' & Hd').
    apply (slash_split_unique d b d' (basename p)); [congruence|done| |done|done].
    apply basename_split.
  - intros ->. split; [apply basename_split|apply basename_dir].
Qed.

End PyStr.
