(* ===== verification/FS.v ===== *)
(** The operating-system layer that src/code_license_replacer.py goes
    through: [os.listdir] (inside [glob.glob], lines 6-12), [open] in mode
    ['r'] (line 16) and ['r+'] (line 30), and the file object's [read],
    [seek], [write], [truncate] and [close] (lines 31-37).

    The file system is a finite map from normalised paths to nodes: a
    regular file with its bytes and permissions, or a directory with its
    entries in [os.listdir] order.  A file object carries its path, the
    bytes it sees and its position; [fo_close] flushes it back. *)

From S2P Require Import Prelude.

Module FS.

Record perm := Perm { p_read : bool; p_write : bool }.

Inductive node :=
  | RegFile (data : text) (pm : perm)
  | Directory (entries : list text).

Abbreviation fs := (gmap text node).

(** The kernel reads ["./x"] as ["x"]; ["."] is the working directory. *)
Definition resolve (p : text) : text :=
  if bool_decide (take 2 p = ⟪"./"⟫) then drop 2 p else p.

(** [os.listdir(d)]: [None] is [os.error]. *)
Definition listdir (f : fs) (d : text) : option (list text) :=
  match f !! resolve d with
  | Some (Directory es) => Some es
  | _ => None
  end.

(** [os.path.isdir(p)] *)
Definition isdir (f : fs) (p : text) : bool :=
  match f !! resolve p with Some (Directory _) => true | _ => false end.

(** The [errno] values [open] reports, and [os.strerror] of each. *)
Definition ENOENT : nat := 2.
Definition EACCES : nat := 13.
Definition EISDIR : nat := 21.

Definition strerror (n : nat) : text :=
  if bool_decide (n = ENOENT) then ⟪"No such file or directory"⟫
  else if bool_decide (n = EACCES) then ⟪"Permission denied"⟫
  else if bool_decide (n = EISDIR) then ⟪"Is a directory"⟫
  else ⟪"Unknown error"⟫.

(** [open(p)].read(): [IOError] with [ENOENT] when [p] is missing, [EISDIR]
    when it is a directory, [EACCES] when it may not be read. *)
Definition open_read (f : fs) (p : text) : res text :=
  match f !! resolve p with
  | None => Err (IOError ENOENT p)
  | Some (Directory _) => Err (IOError EISDIR p)
  | Some (RegFile data pm) => if p_read pm then Ok data else Err (IOError EACCES p)
  end.

(** A file object opened with ['r+']. *)
Record fobj := FObj { fo_path : text; fo_data : text; fo_pos : nat; fo_perm : perm }.

(** [open(p, 'r+')]: a regular file both readable and writable; the
    errors are those of [open_read], [EACCES] when either right is missing. *)
Definition open_rw (f : fs) (p : text) : res fobj :=
  match f !! resolve p with
  | None => Err (IOError ENOENT p)
  | Some (Directory _) => Err (IOError EISDIR p)
  | Some (RegFile data pm) =>
      if p_read pm && p_write pm then Ok (FObj (resolve p) data 0 pm)
      else Err (IOError EACCES p)
  end.

(** [file.read()]: the rest of the file; the position moves to the end. *)
Definition fo_read (o : fobj) : text * fobj :=
  (drop (fo_pos o) (fo_data o),
   FObj (fo_path o) (fo_data o) (length (fo_data o)) (fo_perm o)).

(** [file.seek(n)] *)
Definition fo_seek (o : fobj) (n : nat) : fobj :=
  FObj (fo_path o) (fo_data o) n (fo_perm o).

(** [file.write(t)]: overwrite from the position (a gap past the end is
    filled with NUL bytes); the position moves past [t]. *)
Definition fo_write (o : fobj) (t : text) : fobj :=
  let d := fo_data o in
  let p := fo_pos o in
  FObj (fo_path o)
    (take p d ++ replicate (p - length d) "000"%char ++ t ++ drop (p + length t) d)
    (p + length t) (fo_perm o).

(** [file.truncate()]: cut the file at the position. *)
Definition fo_truncate (o : fobj) : fobj :=
  FObj (fo_path o) (take (fo_pos o) (fo_data o)) (fo_pos o) (fo_perm o).

(** [file.close()]: the bytes reach the file system. *)
Definition fo_close (f : fs) (o : fobj) : fs :=
  <[fo_path o := RegFile (fo_data o) (fo_perm o)]> f.

(** ** Well-formed file systems *)

(** Directory entries are distinct, non-empty names without a slash. *)
Definition fs_wf (f : fs) : Prop :=
  ∀ d es, f !! d = Some (Directory es) →
    NoDup es ∧ ∀ n, n ∈ es → n ≠ [] ∧ "/"%char ∉ n.

(** Two file systems with the same directories and the same paths:
    [os.listdir] and [os.path.lexists] cannot tell them apart. *)
Definition same_shape (f g : fs) : Prop :=
  ∀ k, (∀ es, f !! k = Some (Directory es) ↔ g !! k = Some (Directory es)) ∧
       (is_Some (f !! k) ↔ is_Some (g !! k)).

(** Two nodes alike but for the bytes of a regular file. *)
Definition node_alike (a b : option node) : Prop :=
  match a, b with
  | Some (RegFile _ pm), Some (RegFile _ pm') => pm = pm'
  | Some (Directory es), Some (Directory es') => es = es'
  | None, None => True
  | _, _ => False
  end.

(** [g] is [f] with only the contents of regular files changed: no path
    created or deleted, no directory listing and no permission changed. *)
Definition data_only (f g : fs) : Prop := ∀ k, node_alike (f !! k) (g !! k).

(** [fs_wf] as a check on a concrete file system. *)
Definition node_ok (nd : node) : Prop :=
  match nd with
  | Directory es => NoDup es ∧ Forall (λ n, n ≠ [] ∧ "/"%char ∉ n) es
  | RegFile _ _ => True
  end.

#[export] Instance node_ok_dec nd : Decision (node_ok nd).
Proof. destruct nd; simpl; apply _. Defined.

Definition fs_wf_b (f : fs) : bool := bool_decide (map_Forall (λ _, node_ok) f).

(** ** Lemmas *)

Lemma fs_wf_b_sound (f : fs) : fs_wf_b f = true → fs_wf f.
Proof.
  unfold fs_wf_b. rewrite bool_decide_eq_true. intros Hf d es Hd.
  specialize (Hf d _ Hd). cbn in Hf. destruct Hf as [Hnd Hes].
  split; [done|]. intros n Hn. by apply (proj1 (Forall_forall _ _) Hes).
Qed.

#[export] Instance same_shape_equiv : Equivalence same_shape.
Proof.
  split.
  - intros f k. done.
  - intros f g H k. destruct (H k) as [H1 H2]. split; [intros es; by rewrite H1|by rewrite H2].
  - intros f g h H H' k. destruct (H k) as [H1 H2], (H' k) as [H1' H2'].
    split; [intros es; by rewrite H1, H1'|by rewrite H2, H2'].
Qed.

#[export] Instance listdir_proper : Proper (same_shape ==> eq ==> eq) listdir.
Proof.
  intros f g H d ? <-. unfold listdir. destruct (H (resolve d)) as [H1 _].
  destruct (f !! resolve d) as [[|es]|], (g !! resolve d) as [[|es']|]; try done;
    first [specialize (H1 es) | specialize (H1 es')]; naive_solver.
Qed.

#[export] Instance isdir_proper : Proper (same_shape ==> eq ==> eq) isdir.
Proof.
  intros f g H d ? <-. unfold isdir. destruct (H (resolve d)) as [H1 _].
  destruct (f !! resolve d) as [[|es]|] eqn:E, (g !! resolve d) as [[|es']|] eqn:E'; try done;
    first [specialize (H1 es) | specialize (H1 es')]; naive_solver.
Qed.

#[export] Instance fs_wf_proper : Proper (same_shape ==> iff) fs_wf.
Proof.
  intros f g H. unfold fs_wf. split; intros Hwf d es Hd; apply (Hwf d); by apply H.
Qed.

(** Changing only file contents is reflexive and transitive. *)
#[export] Instance data_only_preorder : PreOrder data_only.
Proof.
  split.
  - intros f k. by destruct (f !! k) as [[]|].
  - intros f g h H1 H2 k. specialize (H1 k). specialize (H2 k). revert H1 H2.
    destruct (f !! k) as [[]|], (g !! k) as [[]|], (h !! k) as [[]|]; cbn; naive_solver.
Qed.

Lemma data_only_same_shape (f g : fs) : data_only f g → same_shape f g.
Proof.
  intros H k. specialize (H k). revert H.
  destruct (f !! k) as [[]|], (g !! k) as [[]|]; cbn; intros; subst;
    (split; [intros es; split; intros; simplify_eq; done|]); rewrite !is_Some_alt; naive_solver.
Qed.

Lemma data_only_insert_file (f : fs) k d pm d' :
  f !! k = Some (RegFile d pm) → data_only f (<[k := RegFile d' pm]> f).
Proof.
  intros Hk k'. destruct (decide (k = k')) as [<-|Hne].
  - rewrite lookup_insert_eq, Hk. done.
  - rewrite lookup_insert_ne by done. by destruct (f !! k') as [[]|].
Qed.

(** [seek(0)], [write(t)], [truncate()] leave exactly [t] in the file,
    whatever it held before; without [truncate] a longer old content would
    survive past the end of [t]. *)
Lemma seek_write_truncate_data (o : fobj) (t : text) :
  fo_data (fo_truncate (fo_write (fo_seek o 0) t)) = t ∧
  fo_pos (fo_truncate (fo_write (fo_seek o 0) t)) = length t.
Proof.
  unfold fo_truncate, fo_write, fo_seek. simpl. split; [|done].
  by rewrite take_app_length.
Qed.

(** The file after [seek(0); write(t); truncate(); close()] holds [t]. *)
Lemma rewrite_close (f : fs) (o : fobj) (t : text) :
  fo_close f (fo_truncate (fo_write (fo_seek o 0) t)) =
  <[fo_path o := RegFile t (fo_perm o)]> f.
Proof. unfold fo_close. by rewrite (proj1 (seek_write_truncate_data o t)). Qed.

Lemma fo_close_wf (f : fs) (o : fobj) :
  fs_wf f → (∀ es, f !! fo_path o ≠ Some (Directory es)) → fs_wf (fo_close f o).
Proof.
  intros Hwf Hnd d es. unfold fo_close.
  destruct (decide (fo_path o = d)) as [<-|Hne].
  - by rewrite lookup_insert_eq.
  - rewrite lookup_insert_ne by done. apply Hwf.
Qed.

Lemma listdir_wf (f : fs) d es :
  fs_wf f → listdir f d = Some es →
  NoDup es ∧ ∀ n, n ∈ es → n ≠ [] ∧ "/"%char ∉ n.
Proof.
  unfold listdir. intros Hwf. destruct (f !! resolve d) as [[|es']|] eqn:E; try done.
  intros [= <-]. by eapply Hwf.
Qed.

Lemma resolve_id (p : text) : head p ≠ Some "."%char → resolve p = p.
Proof.
  intros Hp. unfold resolve. rewrite bool_decide_eq_false_2; [done|].
  destruct p as [|c p]; [done|]. unfold_lits. intros [= -> _]. by apply Hp.
Qed.

Lemma open_rw_ok (f : fs) p o :
  open_rw f p = Ok o →
  fo_path o = resolve p ∧ fo_pos o = 0 ∧
  f !! resolve p = Some (RegFile (fo_data o) (fo_perm o)) ∧
  p_read (fo_perm o) = true ∧ p_write (fo_perm o) = true.
Proof.
  unfold open_rw. destruct (f !! resolve p) as [[data pm|]|]; try done.
  destruct (p_read pm) eqn:Hr, (p_write pm) eqn:Hw; simpl; try done.
  intros [= <-]. simpl. done.
Qed.


(** C18: [seek(0)], [write(t)], [truncate()] leave exactly [t] in the file,
    whatever it held before; without [truncate] a longer old content would
    survive past the end of [t]. *)
Theorem seek_write_truncate (o : fobj) (t : text) :
  fo_data (fo_truncate (fo_write (fo_seek o 0) t)) = t ∧
  fo_pos (fo_truncate (fo_write (fo_seek o 0) t)) = length t.
Proof. apply seek_write_truncate_data. Qed.


End FS.
