(* ===== verification/Glob.v ===== *)
(** File discovery, lines 6-12 of src/code_license_replacer.py:
    [allFileNames] is the concatenation of fourteen [glob.glob] calls, one
    per (directory, extension) pair, in the order of the source.

    [glob] is [glob.iglob] of Python 2.7: [os.path.split] of the pattern,
    the existence test for a pattern without magic characters, [glob1]
    ([os.listdir], the hidden-name filter, [fnmatch.filter]) or [glob0] on
    each directory, the recursion on a directory part with magic
    characters, and [os.path.join] of the directory and each name.
    [fnmatch] patterns are modelled for [*], [?] and literal bytes; a
    [[...]] set is read as literal bytes (sets do not occur in the
    script's patterns). *)

From S2P Require Import Prelude PyStr FS.

Module Glob.

Import PyStr FS.

(** ** [posixpath.split] *)

Fixpoint lstrip_slash (s : text) : text :=
  match s with
  | c :: s' => if bool_decide (c = "/"%char) then lstrip_slash s' else s
  | [] => []
  end.

(** [i = p.rfind('/') + 1; head, tail = p[:i], p[i:]]; a head that is not
    all slashes loses its trailing slashes. *)
Definition os_split (p : text) : text * text :=
  let i := match rfind_from "/" p 0 with Some j => S j | None => 0 end in
  let hd := take i p in
  let hd := if bool_decide (hd ≠ [] ∧ lstrip_slash hd ≠ []) then rev (lstrip_slash (rev hd))
            else hd in
  (hd, drop i p).

(** ** [fnmatch] *)

Inductive fpat :=
  | FStar
  | FAny
  | FLit (c : ascii).

(** [fnmatch.translate], for patterns without [[...]]. *)
Definition fn_translate (pat : text) : list fpat :=
  map (λ c, if bool_decide (c = "*"%char) then FStar
            else if bool_decide (c = "?"%char) then FAny else FLit c) pat.

(** Whether [name] matches the translated pattern: [.*] may take any
    number of bytes (DOTALL), [.] one byte, a literal itself. *)
Fixpoint fmatch (ps : list fpat) (name : text) : bool :=
  match ps with
  | [] => bool_decide (name = [])
  | FStar :: ps' => existsb (λ k, fmatch ps' (drop k name)) (seq 0 (S (length name)))
  | FAny :: ps' => match name with [] => false | _ :: n' => fmatch ps' n' end
  | FLit c :: ps' =>
      match name with
      | [] => false
      | c' :: n' => bool_decide (c' = c) && fmatch ps' n'
      end
  end.

Definition fnmatch (name pat : text) : bool := fmatch (fn_translate pat) name.

(** ** [glob] *)

Definition has_magic (s : text) : bool :=
  existsb (λ c, bool_decide (c ∈ ⟪"*?["⟫)) s.

(** [os.path.lexists(p)] *)
Definition lexists (f : fs) (p : text) : bool := bool_decide (is_Some (f !! resolve p)).

(** [glob1(dirname, pattern)]: list the directory ([os.curdir] when
    [dirname] is empty; nothing on [os.error]), drop hidden names unless
    the pattern starts with a dot, keep the names that match. *)
Definition glob1 (f : fs) (dirname pattern : text) : list text :=
  match listdir f (if bool_decide (dirname = []) then ⟪"."⟫ else dirname) with
  | None => []
  | Some names =>
      let names :=
        if bool_decide (head pattern = Some "."%char) then names
        else List.filter (λ x, negb (bool_decide (head x = Some "."%char))) names in
      List.filter (λ n, fnmatch n pattern) names
  end.

(** [glob0(dirname, basename)]: the name itself when it exists ([isdir]
    for an empty name). *)
Definition glob0 (f : fs) (dirname base : text) : list text :=
  if bool_decide (base = []) then (if isdir f dirname then [base] else [])
  else if lexists f (join dirname base) then [base] else [].

(** [glob.iglob(pathname)]; the recursion on a directory part with magic
    characters takes fuel ([iglob_fuel] shows the fuel given by [glob] is
    enough). *)
Fixpoint iglob (fuel : nat) (f : fs) (pathname : text) : list text :=
  let '(dirname, base) := os_split pathname in
  if negb (has_magic pathname) then
    if bool_decide (base ≠ []) then (if lexists f pathname then [pathname] else [])
    else if isdir f dirname then [pathname] else []
  else if bool_decide (dirname = []) then glob1 f ⟪"."⟫ base
  else
    let dirs := if bool_decide (dirname ≠ pathname) && has_magic dirname then
                  match fuel with 0 => [] | S fuel => iglob fuel f dirname end
                else [dirname] in
    let glob_in_dir := if has_magic base then glob1 f else glob0 f in
    concat (map (λ d, map (join d) (glob_in_dir d base)) dirs).

(** [glob.glob(pathname)] = [list(iglob(pathname))]. *)
Definition glob (f : fs) (pathname : text) : list text :=
  iglob (S (length pathname)) f pathname.

(** The fourteen patterns of lines 6-12, in order. *)
Definition script_globs : list text :=
  [⟪"*.h"⟫; ⟪"*.cpp"⟫;
   ⟪"BlammoEngine/*.h"⟫; ⟪"BlammoEngine/*.cpp"⟫;
   ⟪"ESPEngine/*.h"⟫; ⟪"ESPEngine/*.cpp"⟫;
   ⟪"GameModel/*.h"⟫; ⟪"GameModel/*.cpp"⟫;
   ⟪"GameView/*.h"⟫; ⟪"GameView/*.cpp"⟫;
   ⟪"GameControl/*.h"⟫; ⟪"GameControl/*.cpp"⟫;
   ⟪"GameSound/*.h"⟫; ⟪"GameSound/*.cpp"⟫].

(** [allFileNames] *)
Definition all_file_names (f : fs) : list text := concat (map (glob f) script_globs).

(** ** What the fourteen patterns find *)

(** The directories and extensions of lines 6-12; [[]] is the script's
    own directory. *)
Definition script_dirs : list text :=
  [[]; ⟪"BlammoEngine"⟫; ⟪"ESPEngine"⟫; ⟪"GameModel"⟫; ⟪"GameView"⟫;
   ⟪"GameControl"⟫; ⟪"GameSound"⟫].
Definition script_exts : list text := [⟪".h"⟫; ⟪".cpp"⟫].
Definition script_pairs : list (text * text) :=
  concat (map (λ d, map (λ e, (d, e)) script_exts) script_dirs).

(** The pattern [d/*e] ([*e] in the script's directory). *)
Definition star_pat (d e : text) : text :=
  if bool_decide (d = []) then "*"%char :: e else d ++ "/"%char :: "*"%char :: e.

(** The path of the entry [n] of directory [d]. *)
Definition in_dir (d n : text) : text :=
  if bool_decide (d = []) then n else d ++ "/"%char :: n.

Definition not_hidden (n : text) : bool := negb (bool_decide (head n = Some "."%char)).

(** The entries of [d] that are not hidden and end with [e], as paths. *)
Definition candidates (f : fs) (d e : text) : list text :=
  match listdir f (if bool_decide (d = []) then ⟪"."⟫ else d) with
  | None => []
  | Some es => map (in_dir d) (List.filter (λ n, bool_decide (e `suffix_of` n))
                                 (List.filter not_hidden es))
  end.

(** The directory part and the last byte of a path: distinct patterns of
    the script give paths with distinct keys. *)
Definition path_key (p : text) : text * option ascii := ((os_split p).1, last p).

(** No slash and no [fnmatch] magic. *)
Definition plain (s : text) : bool := forallb (λ c, bool_decide (c ∉ ⟪"/*?["⟫)) s.

(** ** Lemmas *)

Lemma fmatch_lits (ext n : text) : fmatch (map FLit ext) n = bool_decide (n = ext).
Proof.
  revert n. induction ext as [|c ext IH]; intros [|c' n]; simpl; try done.
  rewrite IH. repeat case_bool_decide; naive_solver.
Qed.

(** [*] followed by literal bytes matches exactly the names ending with
    them. *)
Lemma fmatch_star_lits (ext n : text) :
  fmatch (FStar :: map FLit ext) n = bool_decide (ext `suffix_of` n).
Proof.
  cbn [fmatch]. apply Bool.eq_iff_eq_true. rewrite existsb_exists, bool_decide_eq_true.
  setoid_rewrite fmatch_lits. setoid_rewrite bool_decide_eq_true. split.
  - intros (k & _ & Hk). exists (take k n).
    by rewrite <-Hk, take_drop.
  - intros [pre ->]. exists (length pre). split; [apply in_seq; rewrite length_app; lia|].
    by rewrite drop_app_length.
Qed.

Lemma rfind_from_absent c (y : text) i : c ∉ y → rfind_from c y i = None.
Proof.
  revert i. induction y as [|x y IH]; intros i Hy; simpl; [done|].
  rewrite IH by set_solver. rewrite bool_decide_eq_false_2; [done|]. set_solver.
Qed.

Lemma rfind_from_last c (x y : text) i :
  c ∉ y → rfind_from c (x ++ c :: y) i = Some (i + length x).
Proof.
  revert i. induction x as [|a x IH]; intros i Hy; simpl.
  - rewrite rfind_from_absent by done. rewrite bool_decide_eq_true_2 by done.
    f_equal. lia.
  - rewrite IH by done. f_equal. lia.
Qed.

Lemma lstrip_slash_id (s : text) : head s ≠ Some "/"%char → lstrip_slash s = s.
Proof.
  destruct s as [|c s]; [done|]. simpl. intros Hc.
  rewrite bool_decide_eq_false_2; [done|]. by intros ->.
Qed.

(** Splitting [d/n] gives back the directory and the name. *)
Lemma os_split_join (d n : text) :
  "/"%char ∉ n → "/"%char ∉ d → d ≠ [] →
  os_split (d ++ "/"%char :: n) = (d, n).
Proof.
  intros Hn Hd Hne. assert (head d ≠ Some "/"%char) as Hh.
  { destruct d as [|c d]; [done|]. simpl. intros [= ->]. set_solver. }
  assert (last d ≠ Some "/"%char) as Hl.
  { intros (d' & ->)%last_Some. set_solver. }
  unfold os_split. rewrite rfind_from_last by done. simpl.
  change (d ++ "/"%char :: n) with (d ++ ["/"%char] ++ n). rewrite app_assoc.
  rewrite take_app_length', drop_app_length' by (rewrite length_app; simpl; lia).
  rewrite bool_decide_eq_true_2.
  - rewrite rev_app_distr. simpl. rewrite lstrip_slash_id by (by rewrite head_rev).
    by rewrite rev_involutive.
  - split; [by destruct d|]. rewrite lstrip_slash_id; [by destruct d|by destruct d].
Qed.

(** A name without a slash has an empty directory part. *)
Lemma os_split_name (n : text) : "/"%char ∉ n → os_split n = ([], n).
Proof. intros Hn. unfold os_split. by rewrite rfind_from_absent. Qed.

Lemma plain_spec (s : text) c : plain s = true → c ∈ s → c ∉ ⟪"/*?["⟫.
Proof.
  unfold plain. rewrite forallb_forall. intros H Hc.
  apply list_elem_of_In in Hc. apply H in Hc. by apply bool_decide_eq_true in Hc.
Qed.

Lemma plain_no_slash (s : text) : plain s = true → "/"%char ∉ s.
Proof. intros H Hc. apply (plain_spec _ _ H Hc). unfold_lits. set_solver. Qed.

Lemma fn_translate_plain (e : text) : plain e = true → fn_translate e = map FLit e.
Proof.
  intros He. apply map_ext_in. intros c Hc%list_elem_of_In.
  pose proof (plain_spec _ _ He Hc) as Hn.
  rewrite !bool_decide_eq_false_2; [done| |]; intros ->; apply Hn; unfold_lits; set_solver.
Qed.

Lemma has_magic_star (d e : text) : has_magic (star_pat d e) = true.
Proof.
  unfold has_magic. apply existsb_exists. exists "*"%char. split.
  - unfold star_pat. case_bool_decide; [by left|]. apply in_or_app. right. right. by left.
  - apply bool_decide_eq_true. unfold_lits. set_solver.
Qed.

Lemma plain_no_magic (s : text) : plain s = true → has_magic s = false.
Proof.
  intros Hs. unfold has_magic. apply not_true_iff_false. rewrite existsb_exists.
  intros (c & Hc & Hm). apply list_elem_of_In in Hc. apply (plain_spec s c Hs Hc).
  cbv beta in Hm. apply bool_decide_eq_true in Hm. unfold_lits. set_solver.
Qed.

(** [glob1] with the pattern [*e]: the non-hidden entries ending with [e]. *)
Lemma glob1_star (f : fs) (d e : text) :
  plain e = true →
  glob1 f d ("*"%char :: e) =
  match listdir f (if bool_decide (d = []) then ⟪"."⟫ else d) with
  | None => []
  | Some es => List.filter (λ n, bool_decide (e `suffix_of` n)) (List.filter not_hidden es)
  end.
Proof.
  intros He. unfold glob1. destruct (listdir _ _); [|done].
  rewrite bool_decide_eq_false_2 by done. apply filter_ext. intros n.
  unfold fnmatch. cbn [fn_translate map]. rewrite bool_decide_eq_true_2 by done.
  fold (fn_translate e). rewrite fn_translate_plain by done. apply fmatch_star_lits.
Qed.

Lemma join_plain (d n : text) :
  "/"%char ∉ d → d ≠ [] → "/"%char ∉ n → join d n = d ++ "/"%char :: n.
Proof.
  intros Hd Hne Hn. unfold join.
  rewrite bool_decide_eq_false_2; last first.
  { destruct n; [done|]. simpl. intros [= ->]. set_solver. }
  rewrite !bool_decide_eq_false_2; [done| |done].
  intros (d' & ->)%last_Some. set_solver.
Qed.

Lemma elem_of_filter_list {A} (p : A → bool) (l : list A) x :
  x ∈ List.filter p l ↔ x ∈ l ∧ p x = true.
Proof. rewrite !list_elem_of_In. apply filter_In. Qed.

Lemma lstrip_slash_suffix (y : text) : lstrip_slash y `suffix_of` y.
Proof.
  induction y as [|c y IH]; cbn [lstrip_slash]; [done|].
  case_bool_decide; [by apply suffix_cons_r|done].
Qed.

(** The directory part of [os.path.split] is a prefix of the path. *)
Lemma os_split_prefix (p : text) : (os_split p).1 `prefix_of` p.
Proof.
  unfold os_split. cbn [fst].
  set (i := match rfind_from "/" p 0 with Some j => S j | None => 0 end).
  assert (take i p `prefix_of` p) as Ht by apply prefix_take.
  case_bool_decide; [|done]. etransitivity; [|exact Ht].
  destruct (lstrip_slash_suffix (rev (take i p))) as [pre Hpre].
  exists (rev pre). by rewrite <-rev_app_distr, <-Hpre, rev_involutive.
Qed.

Lemma os_split_shorter (p : text) :
  (os_split p).1 ≠ p → length (os_split p).1 < length p.
Proof.
  intros Hne. destruct (os_split_prefix p) as [r Hr].
  destruct r as [|c r]; [by rewrite app_nil_r in Hr|].
  rewrite Hr at 2. rewrite length_app. simpl. lia.
Qed.

(** Any fuel above the length of the path gives the same list. *)
Lemma iglob_fuel_mono (f : fs) n m p :
  length p < n → n ≤ m → iglob n f p = iglob m f p.
Proof.
  revert m p. induction n as [|n IH]; intros m p Hn Hm; [lia|].
  destruct m as [|m]; [lia|]. cbn [iglob].
  pose proof (os_split_shorter p) as Hs. destruct (os_split p) as [d b]. cbn [fst] in Hs.
  destruct (decide (d = p)) as [->|Hne].
  - rewrite (bool_decide_eq_false_2 (p ≠ p)) by (intros H; by apply H). done.
  - rewrite (IH m d) by (specialize (Hs Hne); lia). done.
Qed.

(** On a well-formed file system, [glob] of [d/*e] is the list of
    candidates of [d] for [e]. *)
Lemma glob_star (f : fs) (d e : text) :
  fs_wf f → plain d = true → plain e = true →
  glob f (star_pat d e) = candidates f d e.
Proof.
  intros Hwf Hd He. assert ("/"%char ∉ "*"%char :: e) as Hse.
  { apply not_elem_of_cons. split; [done|]. by apply plain_no_slash. }
  unfold glob, candidates. cbn [iglob]. pose proof (has_magic_star d e) as Hm.
  unfold star_pat in *. case_bool_decide as Hd0.
  - rewrite os_split_name by done. cbv iota. rewrite Hm. cbn [negb].
    rewrite bool_decide_eq_true_2 by done. rewrite glob1_star by done.
    rewrite bool_decide_eq_false_2 by (unfold_lits; done).
    destruct (listdir _ _); [|done]. unfold in_dir. rewrite bool_decide_eq_true_2 by done.
    by rewrite map_id.
  - rewrite os_split_join by (done || by apply plain_no_slash). cbv iota. rewrite Hm.
    cbn [negb]. rewrite bool_decide_eq_false_2 by done. rewrite (plain_no_magic d Hd), andb_false_r.
    replace (has_magic ("*"%char :: e)) with true by reflexivity. cbn [concat map]. rewrite app_nil_r, glob1_star by done.
    rewrite bool_decide_eq_false_2 by done.
    destruct (listdir _ _) as [es|] eqn:Hl; [|done].
    apply map_ext_in. intros n Hn%list_elem_of_In.
    apply elem_of_filter_list in Hn as [Hn _]. apply elem_of_filter_list in Hn as [Hn _].
    unfold in_dir. rewrite bool_decide_eq_false_2 by done.
    apply join_plain; [by apply plain_no_slash|done|].
    by apply (proj2 (listdir_wf _ _ _ Hwf Hl)).
Qed.

Lemma script_globs_pairs : script_globs = map (λ '(d, e), star_pat d e) script_pairs.
Proof. reflexivity. Qed.

Lemma script_pairs_plain :
  Forall (λ '(d, e), plain d = true ∧ plain e = true ∧ e ≠ []) script_pairs.
Proof. apply (bool_decide_unpack _). vm_compute. reflexivity. Qed.

Lemma path_key_in_dir (d n e : text) :
  "/"%char ∉ d → "/"%char ∉ n → e ≠ [] → e `suffix_of` n →
  path_key (in_dir d n) = (d, last e).
Proof.
  intros Hd Hn He [pre ->]. unfold path_key, in_dir. case_bool_decide as Hd0.
  - subst d. by rewrite os_split_name, last_app by done; destruct (last e) eqn:E;
      [|by apply last_None in E].
  - rewrite os_split_join by done. cbn [fst]. rewrite app_comm_cons, !last_app.
    by destruct (last e) eqn:E; [|by apply last_None in E].
Qed.

Lemma candidates_keys (f : fs) (d e : text) :
  fs_wf f → plain d = true → e ≠ [] →
  NoDup (candidates f d e) ∧ ∀ p, p ∈ candidates f d e → path_key p = (d, last e).
Proof.
  intros Hwf Hd He. unfold candidates. destruct (listdir _ _) as [es|] eqn:Hl;
    [|split; [constructor|set_solver]].
  pose proof (listdir_wf _ _ _ Hwf Hl) as [Hnd Hes]. split.
  - apply NoDup_map_inj; [|by do 2 apply NoDup_filter_list].
    intros x y. unfold in_dir. case_bool_decide; [done|]. by intros ?%app_inv_head; simplify_eq.
  - intros p. rewrite list_elem_of_In, in_map_iff. intros (n & <- & Hin).
    apply filter_In in Hin as [Hin Hs%bool_decide_eq_true]. apply filter_In in Hin as [Hin _].
    apply path_key_in_dir; [by apply plain_no_slash| |done|done].
    apply Hes, list_elem_of_In, Hin.
Qed.

(** on a well-formed file system the script's list of files is, in
    the order of lines 6-12, for each directory and each of [.h] and
    [.cpp], the entries of that directory that are not hidden and end with
    the extension, in [os.listdir] order, as paths under the directory. *)
Lemma all_file_names_eq (f : fs) :
  fs_wf f →
  all_file_names f = concat (map (λ '(d, e), candidates f d e) script_pairs).
Proof.
  intros Hwf. unfold all_file_names. rewrite script_globs_pairs, map_map. f_equal.
  apply map_ext_in. intros [d e] Hin%list_elem_of_In.
  pose proof (proj1 (Forall_forall _ _) script_pairs_plain _ Hin) as (Hd & He & _).
  by apply glob_star.
Qed.

(** no path is found twice, so no file is rewritten twice. *)
Lemma all_file_names_distinct (f : fs) : fs_wf f → NoDup (all_file_names f).
Proof.
  intros Hwf. rewrite all_file_names_eq by done.
  apply (NoDup_concat_keys path_key (map (λ '(d, e), (d, last e)) script_pairs)).
  - apply Forall2_map_diag. eapply Forall_impl; [apply script_pairs_plain|].
    intros [d e] (Hd & _ & He). by apply candidates_keys.
  - apply (bool_decide_unpack _). vm_compute. reflexivity.
Qed.

Lemma glob1_proper (f g : fs) d b : same_shape f g → glob1 f d b = glob1 g d b.
Proof. intros H. unfold glob1. by rewrite (listdir_proper f g H _ _ eq_refl). Qed.

Lemma lexists_proper (f g : fs) p : same_shape f g → lexists f p = lexists g p.
Proof. intros H. unfold lexists. apply bool_decide_ext, H. Qed.

Lemma glob0_proper (f g : fs) d b : same_shape f g → glob0 f d b = glob0 g d b.
Proof.
  intros H. unfold glob0. by rewrite (isdir_proper f g H _ _ eq_refl), (lexists_proper f g).
Qed.

Lemma iglob_proper (f g : fs) n p : same_shape f g → iglob n f p = iglob n g p.
Proof.
  intros H. revert p. induction n as [|n IH]; intros p; cbn [iglob]; destruct (os_split p) as [d b];
    rewrite (lexists_proper f g p H), (isdir_proper f g H d d eq_refl), (glob1_proper f g _ _ H);
    [|rewrite IH]; repeat case_match; try done; f_equal; apply map_ext; intros x; f_equal;
    by apply glob1_proper || apply glob0_proper.
Qed.

#[export] Instance glob_proper : Proper (same_shape ==> eq ==> eq) glob.
Proof. intros f g H p ? <-. by apply iglob_proper. Qed.
#[export] Instance all_file_names_proper : Proper (same_shape ==> eq) all_file_names.
Proof. intros f g H. unfold all_file_names. f_equal. apply map_ext. intros p. by rewrite H. Qed.

Lemma script_pairs_names :
  Forall (λ '(d, e), e ∈ script_exts ∧ head d ≠ Some "."%char) script_pairs.
Proof. apply (bool_decide_unpack _). vm_compute. reflexivity. Qed.

Lemma script_ext_word (e : text) : e ∈ script_exts → ∃ c, c ∈ e ∧ is_word c = true.
Proof.
  unfold script_exts. rewrite !elem_of_cons, elem_of_nil.
  intros [->|[->|[]]]; [exists "h"%char|exists "p"%char]; unfold_lits; split;
    try reflexivity; set_solver.
Qed.

Lemma basename_in_dir (d n : text) : "/"%char ∉ d → "/"%char ∉ n → basename (in_dir d n) = n.
Proof.
  intros Hd Hn. unfold basename, in_dir. case_bool_decide.
  - by rewrite rfind_from_absent.
  - rewrite rfind_from_last by done. simpl.
    change (d ++ "/"%char :: n) with (d ++ ["/"%char] ++ n). rewrite app_assoc.
    rewrite drop_app_length'; [done|]. rewrite length_app. simpl. lia.
Qed.

Lemma resolve_in_dir (d n : text) :
  head d ≠ Some "."%char → not_hidden n = true → resolve (in_dir d n) = in_dir d n.
Proof.
  intros Hd Hn. apply resolve_id. unfold in_dir. case_bool_decide.
  - unfold not_hidden in Hn. case_bool_decide; done.
  - by destruct d.
Qed.

(** the paths the script finds are exactly the non-hidden entries,
    ending with [.h] or [.cpp], of its own directory and of the six
    subdirectories of lines 7-12, joined to the directory. *)
Lemma all_file_names_in (f : fs) (p : text) :
  fs_wf f →
  p ∈ all_file_names f ↔
  ∃ d e es n, (d, e) ∈ script_pairs ∧
    listdir f (if bool_decide (d = []) then ⟪"."⟫ else d) = Some es ∧
    n ∈ es ∧ not_hidden n = true ∧ e `suffix_of` n ∧ p = in_dir d n.
Proof.
  intros Hwf. rewrite all_file_names_eq by done.
  rewrite list_elem_of_In, in_concat. setoid_rewrite in_map_iff. split.
  - intros (l & ([d e] & <- & Hde) & Hp). unfold candidates in Hp.
    destruct (listdir _ _) as [es|] eqn:Hl; [|done].
    apply in_map_iff in Hp as (n & <- & Hn). apply filter_In in Hn as [Hn Hs].
    apply filter_In in Hn as [Hn Hh]. apply bool_decide_eq_true in Hs.
    exists d, e, es, n. rewrite !list_elem_of_In. naive_solver.
  - intros (d & e & es & n & Hde & Hl & Hn & Hh & Hs & ->).
    exists (candidates f d e). split; [exists (d, e); by rewrite <-list_elem_of_In|].
    unfold candidates. rewrite Hl. apply in_map. rewrite !filter_In, <-list_elem_of_In.
    by rewrite bool_decide_eq_true_2.
Qed.

(** What [rewrite_text] and the driver need of a path the script finds:
    [open] reaches it as written, and its base name is a directory entry
    ending with [.h] or [.cpp]. *)
Lemma candidate_facts (f : fs) (p : text) :
  fs_wf f → p ∈ all_file_names f →
  resolve p = p ∧ "/"%char ∉ basename p ∧
  ∃ e, e ∈ script_exts ∧ e `suffix_of` basename p.
Proof.
  intros Hwf Hp. apply all_file_names_in in Hp as (d & e & es & n & Hde & Hl & Hn & Hh & Hs & ->);
    [|done].
  pose proof (proj1 (Forall_forall _ _) script_pairs_names _ Hde) as [He Hd].
  pose proof (proj1 (Forall_forall _ _) script_pairs_plain _ Hde) as (Hpd & _).
  pose proof (proj2 (listdir_wf _ _ _ Hwf Hl) n Hn) as [_ Hns].
  rewrite basename_in_dir by (done || by apply plain_no_slash).
  split; [by apply resolve_in_dir|]. split; [done|]. by exists e.
Qed.

(** C20: on a well-formed file system the script's list of files is, in
    the order of lines 6-12, for each directory and each of [.h] and
    [.cpp], the entries of that directory that are not hidden and end with
    the extension, in [os.listdir] order, as paths under the directory. *)
Theorem all_file_names_spec (f : fs) :
  fs_wf f →
  all_file_names f = concat (map (λ '(d, e), candidates f d e) script_pairs).
Proof. apply all_file_names_eq. Qed.

(** C21: no path is found twice, so no file is rewritten twice. *)
Theorem all_file_names_NoDup (f : fs) : fs_wf f → NoDup (all_file_names f).
Proof. apply all_file_names_distinct. Qed.

End Glob.
