(* ===== verification/License.v ===== *)
(** The license text and the header of src/code_license_replacer.py.

    Lines 24-26 build [licenseText] by appending [" * " + line.strip() +
    "\n"] for every line read from [code_license.txt]; line 32 builds the
    replacement ["/**\n * " + os.path.basename(fileName) + "\n * \n" +
    licenseText + " */"].  [header_readlines] shows that the header, read
    back line by line, is the open line, the name line, the blank line, one
    line per license line (stripped, in order) and the close line;
    [license_text_crlf] that a license with Windows line endings gives
    the same [licenseText]. *)

From S2P Require Import Prelude PyStr.

Module License.

Import PyStr.

(** [licenseText += " * " + licenseTextLine.strip() + "\n"] *)
Definition license_step (acc l : text) : text :=
  acc ++ ⟪" * "⟫ ++ strip l ++ [newline].

(** Lines 24-26: the loop over [licenseTextLines], from [""]. *)
Definition license_text (lines : list text) : text :=
  fold_left license_step lines [].

(** The three literal pieces of the replacement string of line 32. *)
Definition hdr_open : text := ⟪"/**"⟫ ++ [newline] ++ ⟪" * "⟫.
Definition hdr_sep : text := [newline] ++ ⟪" * "⟫ ++ [newline].
Definition hdr_close : text := ⟪" */"⟫.

(** ["/**\n * " + os.path.basename(fileName) + "\n * \n" + licenseText + " */"] *)
Definition header (name lt : text) : text :=
  hdr_open ++ name ++ hdr_sep ++ lt ++ hdr_close.

(** One line of the license block as the header holds it. *)
Definition license_line (l : text) : text := ⟪" * "⟫ ++ strip l ++ [newline].

(** ** Lemmas *)

Lemma license_text_go (lines : list text) acc :
  fold_left license_step lines acc = acc ++ concat (map license_line lines).
Proof.
  revert acc. induction lines as [|l lines IH]; intros acc;
    cbn [fold_left map concat].
  - by rewrite app_nil_r.
  - rewrite IH. unfold license_step, license_line. by rewrite <-!app_assoc.
Qed.

(** The loop of lines 24-26 is the concatenation of the license lines. *)
Lemma license_text_concat (lines : list text) :
  license_text lines = concat (map license_line lines).
Proof. apply license_text_go. Qed.

Lemma readlines_license_lines (lines : list text) (r : text) :
  Forall line_shape lines →
  readlines (concat (map license_line lines) ++ r) =
  map license_line lines ++ readlines r.
Proof.
  induction 1 as [|l lines Hl _ IH]; [done|]. cbn [map concat].
  unfold license_line at 1. rewrite <-!app_assoc.
  rewrite (app_assoc ⟪" * "⟫), readlines_line.
  - by rewrite IH, <-app_assoc.
  - apply strip_line_no_newline in Hl. unfold_lits. set_solver.
Qed.

(** C17: read back line by line, the header of a file named [name] is the
    opening line, the name line, a blank comment line, one [" * "] line per
    line of the license file (stripped, in the same order) and the closing
    [" */"]. *)
Theorem header_readlines (data name : text) :
  newline ∉ name →
  readlines (header name (license_text (readlines data))) =
  [⟪"/**"⟫ ++ [newline]; ⟪" * "⟫ ++ name ++ [newline]; ⟪" * "⟫ ++ [newline]] ++
  map license_line (readlines data) ++ [hdr_close].
Proof.
  intros Hn. rewrite license_text_concat.
  unfold header, hdr_open, hdr_sep. rewrite <-!app_assoc.
  rewrite readlines_line by (unfold_lits; set_solver).
  rewrite (app_assoc ⟪" * "⟫ name), readlines_line by (unfold_lits; set_solver).
  rewrite readlines_line by (unfold_lits; set_solver).
  rewrite readlines_license_lines by apply readlines_shape.
  rewrite (readlines_last hdr_close); [by rewrite <-!app_assoc| |].
  - unfold hdr_close. not_in_lit.
  - unfold hdr_close. unfold_lits. discriminate.
Qed.

(** C26: a license file saved with Windows line endings gives the same
    [licenseText] as the same file with Unix line endings: [readlines]
    keeps the ["\r"] at the end of each line and [strip] removes it. *)
Theorem license_text_crlf (data : text) :
  license_text (readlines (crlf data)) = license_text (readlines data).
Proof.
  rewrite readlines_crlf, !license_text_concat.
  induction (readlines_shape data) as [|l ls Hl _ IH]; [done|]. cbn [map concat].
  unfold license_line at 1. by rewrite strip_crlf_line, IH.
Qed.

End License.
