(* ===== verification/Sre.v ===== *)
(** The regular-expression engine behind line 32 of
    src/code_license_replacer.py.

    [re.sub(r"^\W*/\*\*(.+?)\*/", ..., flags=re.DOTALL)] compiles the
    pattern into an sre program and runs the backtracking matcher of
    [_sre.c] on it.  [license_pattern] is that compiled program, written
    out opcode by opcode; [sre_match] interprets the opcodes it uses
    ([AT_BEGINNING], [LITERAL], [MARK], the single-character repeats
    [REPEAT_ONE] (greedy) and [MIN_REPEAT_ONE] (lazy)), and [sre_search]
    tries every start position as [pattern.sub] does.  The main theorem,
    [sre_search_license_spec], characterises the match declaratively. *)

From S2P Require Import Prelude.

Module Sre.

(** ** The opcodes *)

(** The single-character sets the pattern uses: [\W] is
    [IN [CATEGORY CATEGORY_NOT_WORD]], and [.] under DOTALL is [ANY_ALL]. *)
Inductive sre_set :=
  | CATEGORY_NOT_WORD
  | ANY_ALL.

Definition set_match (st : sre_set) (c : ascii) : bool :=
  match st with
  | CATEGORY_NOT_WORD => negb (is_word c)
  | ANY_ALL => true
  end.

(** [mx = None] is [MAXREPEAT], an unbounded repeat. *)
Inductive sre_op :=
  | AT_BEGINNING
  | LITERAL (c : ascii)
  | MARK (n : nat)
  | REPEAT_ONE (mn : nat) (mx : option nat) (st : sre_set)
  | MIN_REPEAT_ONE (mn : nat) (mx : option nat) (st : sre_set).

(** The saved marks, most recent first: [(n, pos)] is [state->mark[n]]. *)
Abbreviation marks := (list (nat * nat)).

(** [SRE(count)]: how many characters from the start of [l] are in [st]. *)
Fixpoint count_run (st : sre_set) (l : text) : nat :=
  match l with
  | [] => 0
  | c :: l' => if set_match st c then S (count_run st l') else 0
  end.

Definition cap (mx : option nat) (n : nat) : nat :=
  match mx with None => n | Some m => Nat.min m n end.

(** The loop of [REPEAT_ONE]: try the tail after [mn + d], [mn + d - 1],
    ..., [mn] characters, the first success wins. *)
Fixpoint greedy_try {A} (f : nat → option A) (mn d : nat) : option A :=
  match d with
  | 0 => f mn
  | S d' => match f (mn + S d') with
            | Some r => Some r
            | None => greedy_try f mn d'
            end
  end.

(** The loop of [MIN_REPEAT_ONE]: try the tail after [i], [i + 1], ...,
    [i + d] characters. *)
Fixpoint lazy_try {A} (f : nat → option A) (i d : nat) : option A :=
  match f i with
  | Some r => Some r
  | None => match d with
            | 0 => None
            | S d' => lazy_try f (S i) d'
            end
  end.

(** [SRE(match)]: run [prog] on [s] from [pos]; the end position and the
    marks of the first success in backtracking order. *)
Fixpoint sre_match (prog : list sre_op) (s : text) (pos : nat) (m : marks)
    : option (nat * marks) :=
  match prog with
  | [] => Some (pos, m)
  | AT_BEGINNING :: rest =>
      if bool_decide (pos = 0) then sre_match rest s pos m else None
  | LITERAL c :: rest =>
      if bool_decide (s !! pos = Some c) then sre_match rest s (S pos) m
      else None
  | MARK n :: rest => sre_match rest s pos ((n, pos) :: m)
  | REPEAT_ONE mn mx st :: rest =>
      let r := cap mx (count_run st (drop pos s)) in
      if bool_decide (r < mn) then None
      else greedy_try (λ k, sre_match rest s (pos + k) m) mn (r - mn)
  | MIN_REPEAT_ONE mn mx st :: rest =>
      let r := cap mx (count_run st (drop pos s)) in
      if bool_decide (r < mn) then None
      else lazy_try (λ k, sre_match rest s (pos + k) m) mn (r - mn)
  end.

(** [SRE(search)]: the first start position [start .. start + n] at which
    the program matches; the result is (start, end, marks). *)
Fixpoint search_from (prog : list sre_op) (s : text) (start n : nat)
    : option (nat * nat * marks) :=
  match sre_match prog s start [] with
  | Some (e, m) => Some (start, e, m)
  | None => match n with
            | 0 => None
            | S n' => search_from prog s (S start) n'
            end
  end.

Definition sre_search (prog : list sre_op) (s : text) : option (nat * nat * marks) :=
  search_from prog s 0 (length s).

(** [^\W*/\*\*(.+?)\*/] compiled with DOTALL: group 1 is delimited by
    marks 0 and 1. *)
Definition license_pattern : list sre_op :=
  [AT_BEGINNING; REPEAT_ONE 0 None CATEGORY_NOT_WORD;
   LITERAL "/"; LITERAL "*"; LITERAL "*";
   MARK 0; MIN_REPEAT_ONE 1 None ANY_ALL; MARK 1;
   LITERAL "*"; LITERAL "/"].

(** ** A declarative description of the match *)

(** The first [k] bytes of [s] exist and are non-word bytes. *)
Definition nonword_prefix (s : text) (k : nat) : Prop :=
  ∀ i, i < k → ∃ c, s !! i = Some c ∧ is_word c = false.

(** A ["/**"] at [k], after non-word bytes only, and a ["*/"] at least one
    byte after it. *)
Definition opener_ok (s : text) (k : nat) : Prop :=
  nonword_prefix s k ∧ has_at s k ⟪"/**"⟫ = true ∧
  ∃ j, k + 4 ≤ j ∧ has_at s j ⟪"*/"⟫ = true.

(** The block the pattern matches: the LAST admissible opener and the
    FIRST closer after it. *)
Definition leading_block (s : text) (k j : nat) : Prop :=
  nonword_prefix s k ∧ has_at s k ⟪"/**"⟫ = true ∧
  k + 4 ≤ j ∧ has_at s j ⟪"*/"⟫ = true ∧
  (∀ j', k + 4 ≤ j' < j → has_at s j' ⟪"*/"⟫ = false) ∧
  (∀ k', k < k' → ¬ opener_ok s k').

Inductive search_spec (s : text) : option (nat * nat * marks) → Prop :=
  | SearchFound k j :
      leading_block s k j →
      search_spec s (Some (0, j + 2, [(1, j); (0, k + 3)]))
  | SearchNone :
      (∀ k, ¬ opener_ok s k) → search_spec s None.

(** The first ["*/"] at or after [a]. *)
Definition first_closer (s : text) (a j : nat) : Prop :=
  a ≤ j ∧ has_at s j ⟪"*/"⟫ = true ∧
  ∀ j', a ≤ j' < j → has_at s j' ⟪"*/"⟫ = false.

(** What the lazy body loop finds from offset [a]. *)
Inductive close_spec (s : text) (a : nat) (m : marks) : option (nat * marks) → Prop :=
  | CloseFound j : first_closer s a j → close_spec s a m (Some (j + 2, (1, j) :: m))
  | CloseNone : (∀ j, a ≤ j → has_at s j ⟪"*/"⟫ = false) → close_spec s a m None.

(** ** The repeat loops *)

Lemma greedy_try_cases {A} (f : nat → option A) mn d :
  (greedy_try f mn d = None ∧ ∀ t, t ≤ d → f (mn + t) = None) ∨
  (∃ t r, t ≤ d ∧ greedy_try f mn d = Some r ∧ f (mn + t) = Some r ∧
          ∀ t', t < t' ≤ d → f (mn + t') = None).
Proof.
  induction d as [|d IH]; simpl.
  - destruct (f mn) as [r|] eqn:E.
    + right. exists 0, r. rewrite Nat.add_0_r. do 3 (split; [done || lia|]). lia.
    + left. split; [done|]. intros t Ht.
      replace t with 0 by lia. by rewrite Nat.add_0_r.
  - destruct (f (mn + S d)) as [r|] eqn:E.
    + right. exists (S d), r. do 3 (split; [done || lia|]). lia.
    + destruct IH as [[-> Hn]|(t & r & ? & -> & ? & Hn)].
      * left. split; [done|]. intros t Ht.
        destruct (decide (t = S d)) as [->|]; [done|]. apply Hn. lia.
      * right. exists t, r. do 3 (split; [done || lia|]). intros t' ?.
        destruct (decide (t' = S d)) as [->|]; [done|]. apply Hn. lia.
Qed.

Lemma lazy_try_cases {A} (f : nat → option A) i d :
  (lazy_try f i d = None ∧ ∀ t, t ≤ d → f (i + t) = None) ∨
  (∃ t r, t ≤ d ∧ lazy_try f i d = Some r ∧ f (i + t) = Some r ∧
          ∀ t', t' < t → f (i + t') = None).
Proof.
  revert i. induction d as [|d IH]; intros i; simpl;
    destruct (f i) as [r|] eqn:E.
  - right. exists 0, r. rewrite Nat.add_0_r. do 3 (split; [done || lia|]). lia.
  - left. split; [done|]. intros t Ht. replace t with 0 by lia.
    by rewrite Nat.add_0_r.
  - right. exists 0, r. rewrite Nat.add_0_r. do 3 (split; [done || lia|]). lia.
  - destruct (IH (S i)) as [[-> Hn]|(t & r & ? & -> & Ht & Hn)].
    + left. split; [done|]. intros [|t] Ht; [by rewrite Nat.add_0_r|].
      rewrite <-Nat.add_succ_comm. apply Hn. lia.
    + right. exists (S t), r. rewrite <-Nat.add_succ_comm.
      do 3 (split; [done || lia|]). intros [|t'] ?; [by rewrite Nat.add_0_r|].
      rewrite <-Nat.add_succ_comm. apply Hn. lia.
Qed.

(** ** [SRE(count)] *)

Lemma count_run_lookup st (l : text) i :
  i < count_run st l → ∃ c, l !! i = Some c ∧ set_match st c = true.
Proof.
  revert i. induction l as [|c l IH]; intros i; simpl; [lia|].
  destruct (set_match st c) eqn:E; [|lia]. destruct i as [|i]; simpl; eauto with lia.
Qed.

Lemma count_run_stop st (l : text) c :
  l !! count_run st l = Some c → set_match st c = false.
Proof.
  induction l as [|c' l IH]; simpl; [done|].
  destruct (set_match st c') eqn:E; simpl; [done|]. by intros [= <-].
Qed.

Lemma count_run_any (l : text) : count_run ANY_ALL l = length l.
Proof. induction l; simpl; auto. Qed.

Lemma nonword_prefix_run (s : text) k :
  nonword_prefix s k ↔ k ≤ count_run CATEGORY_NOT_WORD s.
Proof.
  split.
  - intros Hk. destruct (decide (k ≤ count_run CATEGORY_NOT_WORD s)); [done|].
    destruct (Hk (count_run CATEGORY_NOT_WORD s)) as (c & Hc & Hw); [lia|].
    apply count_run_stop in Hc. simpl in Hc. by rewrite Hw in Hc.
  - intros Hk i Hi. destruct (count_run_lookup CATEGORY_NOT_WORD s i)
      as (c & ? & Hc); [lia|]. simpl in Hc. exists c. split; [done|].
    by destruct (is_word c).
Qed.

(** ** The sub-programs of [license_pattern] *)

Lemma sre_match_repeat_one mn mx st rest (s : text) p m :
  sre_match (REPEAT_ONE mn mx st :: rest) s p m =
  let r := cap mx (count_run st (drop p s)) in
  if bool_decide (r < mn) then None
  else greedy_try (λ k, sre_match rest s (p + k) m) mn (r - mn).
Proof. done. Qed.

Lemma sre_match_min_repeat_one mn mx st rest (s : text) p m :
  sre_match (MIN_REPEAT_ONE mn mx st :: rest) s p m =
  let r := cap mx (count_run st (drop p s)) in
  if bool_decide (r < mn) then None
  else lazy_try (λ k, sre_match rest s (p + k) m) mn (r - mn).
Proof. done. Qed.

Lemma match_close (s : text) p m :
  sre_match [MARK 1; LITERAL "*"; LITERAL "/"] s p m =
  if has_at s p ⟪"*/"⟫ then Some (p + 2, (1, p) :: m) else None.
Proof.
  simpl. unfold_lits. destruct (has_at s p _) eqn:E.
  - apply has_at_two in E as [E1 E2]. rewrite !bool_decide_eq_true_2 by done.
    do 3 f_equal. lia.
  - case_bool_decide as E1; [|done]. case_bool_decide as E2; [|done].
    exfalso. rewrite <-not_true_iff_false, has_at_two in E. tauto.
Qed.

Lemma first_closer_unique (s : text) a j1 j2 :
  first_closer s a j1 → first_closer s a j2 → j1 = j2.
Proof.
  intros (? & H1 & M1) (? & H2 & M2).
  destruct (Nat.lt_trichotomy j1 j2) as [?|[?|?]]; [|done|].
  - rewrite M2 in H1 by lia. done.
  - rewrite M1 in H2 by lia. done.
Qed.

(** [(.+?)\*/] from [p]: the lazy loop stops at the first ["*/"] that
    leaves at least one byte to the group. *)
Lemma match_lazy (s : text) p m :
  close_spec s (S p) m
    (sre_match [MIN_REPEAT_ONE 1 None ANY_ALL; MARK 1; LITERAL "*"; LITERAL "/"] s p m).
Proof.
  rewrite sre_match_min_repeat_one. cbn [cap]. rewrite count_run_any, length_drop.
  case_bool_decide as Hlen.
  - constructor. intros j Hj. destruct (has_at s j _) eqn:E; [|done].
    apply has_at_lookup_Some in E; [lia|discriminate].
  - destruct (lazy_try_cases (λ k, sre_match [MARK 1; LITERAL "*"; LITERAL "/"] s (p + k) m)
                1 (length s - p - 1)) as [[-> Hn]|(t & r & Ht & -> & Hr & Hn)].
    + constructor. intros j Hj. destruct (has_at s j _) eqn:E; [|done].
      pose proof (has_at_lookup_Some s j ⟪"*/"⟫ ltac:(discriminate) E).
      specialize (Hn (j - S p) ltac:(lia)). rewrite match_close in Hn.
      replace (p + (1 + (j - S p))) with j in Hn by lia. by rewrite E in Hn.
    + rewrite match_close in Hr. destruct (has_at s _ _) eqn:E; [|done].
      injection Hr as <-. replace (p + (1 + t)) with (S p + t) by lia.
      constructor. split; [lia|]. split; [done|]. intros j' ?.
      specialize (Hn (j' - S p) ltac:(lia)). rewrite match_close in Hn.
      replace (p + (1 + (j' - S p))) with j' in Hn by lia.
      by destruct (has_at s j' _).
Qed.

Lemma match_open (s : text) k m :
  sre_match [LITERAL "/"; LITERAL "*"; LITERAL "*"; MARK 0;
             MIN_REPEAT_ONE 1 None ANY_ALL; MARK 1; LITERAL "*"; LITERAL "/"] s k m =
  if has_at s k ⟪"/**"⟫
  then sre_match [MIN_REPEAT_ONE 1 None ANY_ALL; MARK 1; LITERAL "*"; LITERAL "/"]
         s (k + 3) ((0, k + 3) :: m)
  else None.
Proof.
  cbn [sre_match]. unfold_lits. destruct (has_at s k _) eqn:E.
  - apply has_at_cons in E as [E1 E2]. apply has_at_two in E2 as [E2 E3].
    rewrite !bool_decide_eq_true_2 by done. by replace (S (S (S k))) with (k + 3) by lia.
  - case_bool_decide as E1; [|done]. case_bool_decide as E2; [|done].
    case_bool_decide as E3; [|done]. exfalso.
    rewrite <-not_true_iff_false, has_at_cons, has_at_two in E. tauto.
Qed.

(** The part of [license_pattern] after [^\W*], run from [k]. *)
Lemma match_body (s : text) k :
  (has_at s k ⟪"/**"⟫ = true ∧ ∃ j, first_closer s (k + 4) j ∧
     sre_match (drop 2 license_pattern) s k [] = Some (j + 2, [(1, j); (0, k + 3)])) ∨
  (sre_match (drop 2 license_pattern) s k [] = None ∧
     ¬ (has_at s k ⟪"/**"⟫ = true ∧ ∃ j, k + 4 ≤ j ∧ has_at s j ⟪"*/"⟫ = true)).
Proof.
  cbn [drop license_pattern]. rewrite match_open.
  destruct (has_at s k _) eqn:Ho.
  - destruct (match_lazy s (k + 3) [(0, k + 3)]) as [j Hj|Hn].
    + left. split; [done|]. exists j.
      replace (S (k + 3)) with (k + 4) in Hj by lia. done.
    + right. split; [done|]. intros (_ & j & ? & Hc).
      rewrite Hn in Hc by lia. done.
  - right. split; [done|]. intros [? _]. done.
Qed.

Lemma opener_ok_match (s : text) k :
  opener_ok s k → sre_match (drop 2 license_pattern) s k [] ≠ None.
Proof.
  intros (_ & Ho & Hc). destruct (match_body s k) as [(_ & j & _ & ->)|[_ Hn]];
    [done|naive_solver].
Qed.

(** Only start position 0 can match: [^] without MULTILINE. *)
Lemma search_from_license_later (s : text) i n :
  search_from license_pattern s (S i) n = None.
Proof. revert i. induction n as [|n IH]; intros i; simpl; [done|]. apply IH. Qed.

Lemma sre_search_license_unfold (s : text) :
  sre_search license_pattern s =
  (λ r, (0, r.1, r.2)) <$>
    greedy_try (λ k, sre_match (drop 2 license_pattern) s k [])
      0 (count_run CATEGORY_NOT_WORD s).
Proof.
  unfold sre_search. destruct (length s) as [|n]; simpl;
    rewrite Nat.sub_0_r, drop_0;
    destruct (greedy_try _ 0 _) as [[e m]|]; simpl; try done.
  by rewrite search_from_license_later.
Qed.

(** the backtracking matcher on the compiled pattern finds exactly the
    declarative leading block: the last admissible ["/**"] in the leading
    run of non-word bytes and the first ["*/"] at least one byte after it;
    it finds nothing exactly when no opener is admissible. *)
Lemma sre_search_license_spec (s : text) :
  search_spec s (sre_search license_pattern s).
Proof.
  rewrite sre_search_license_unfold.
  destruct (greedy_try_cases (λ k, sre_match (drop 2 license_pattern) s k [])
              0 (count_run CATEGORY_NOT_WORD s)) as [[-> Hn]|(t & r & Ht & -> & Hr & Hn)].
  - constructor. intros k Hk. apply (opener_ok_match s k Hk), Hn.
    apply nonword_prefix_run, Hk.
  - cbv beta in Hr. rewrite Nat.add_0_l in Hr. destruct (match_body s t) as [(Ho & j & (? & Hc & Hfirst) & Hm)|[Hm _]];
      [|by rewrite Hm in Hr].
    rewrite Hm in Hr. injection Hr as <-. simpl. constructor.
    split; [by apply nonword_prefix_run|]. do 4 (split; [done || lia|]).
    intros k' ? Hk'. apply (opener_ok_match s k' Hk'), (Hn k').
    split; [lia|]. apply nonword_prefix_run, Hk'.
Qed.

(** The opener of a leading block is admissible. *)
Lemma leading_block_opener (s : text) k j : leading_block s k j → opener_ok s k.
Proof. intros (? & ? & ? & ? & _). split; [done|]. split; [done|]. eauto. Qed.

(** The match is determined: two leading blocks of one text coincide. *)
Lemma leading_block_unique (s : text) k1 j1 k2 j2 :
  leading_block s k1 j1 → leading_block s k2 j2 → k1 = k2 ∧ j1 = j2.
Proof.
  intros H1 H2. pose proof (leading_block_opener _ _ _ H1) as O1.
  pose proof (leading_block_opener _ _ _ H2) as O2.
  destruct H1 as (P1 & _ & ? & C1 & F1 & L1), H2 as (P2 & _ & ? & C2 & F2 & L2).
  assert (k1 = k2) as <-.
  { destruct (Nat.lt_trichotomy k1 k2) as [?|[?|?]]; [|done|]; exfalso;
      [by apply (L1 k2)|by apply (L2 k1)]. }
  split; [done|]. by apply (first_closer_unique s (k1 + 4)).
Qed.

(** The leading block of a concrete text, read off the matcher's result. *)
Lemma leading_block_of_search (s : text) k j :
  sre_search license_pattern s = Some (0, j + 2, [(1, j); (0, k + 3)]) →
  leading_block s k j.
Proof.
  intros Hs. destruct (sre_search_license_spec s) as [k' j' Hb|]; [|done].
  injection Hs as Hj Hk. assert (k' = k) as -> by lia. by assert (j' = j) as -> by lia.
Qed.

Lemma no_opener_of_search (s : text) :
  sre_search license_pattern s = None → ∀ k, ¬ opener_ok s k.
Proof. intros Hs. destruct (sre_search_license_spec s) as [|Hn]; [done|exact Hn]. Qed.

(** C3: the backtracking matcher on the compiled pattern finds exactly the
    declarative leading block: the last admissible ["/**"] in the leading
    run of non-word bytes and the first ["*/"] at least one byte after it;
    it finds nothing exactly when no opener is admissible. *)
Theorem sre_search_license (s : text) :
  search_spec s (sre_search license_pattern s).
Proof. apply sre_search_license_spec. Qed.

End Sre.
