(* ===== verification/Regex.v ===== *)
(** The [re] module's parser and compiler for the pattern of line 32 of
    src/code_license_replacer.py.

    [re.sub] compiles [r"^\W*/\*\*(.+?)\*/"] with [re.DOTALL] through
    [sre_parse.parse] (a tree of [(op, av)] nodes) and [sre_compile]
    (the opcode list).  [parse_seq] is the loop of [sre_parse._parse] for
    the constructs the pattern uses: [^], [.], literal bytes, the escapes
    [\W] and [\c] for a non-alphanumeric [c], groups [( ... )] numbered from
    1 in the order of their [(], and the repeats [*], [+], [?] with the lazy
    suffix [?].  [compile_node] is [sre_compile._compile] for the nodes
    whose opcodes [Sre] interprets: a repeat of one single-byte set
    becomes [REPEAT_ONE] or [MIN_REPEAT_ONE] (the [_simple] case), a group
    is bracketed by [MARK (2g-2)] and [MARK (2g-1)].

    [None] marks either an error [sre_parse] raises ("nothing to repeat",
    "multiple repeat", "bogus escape", "unbalanced parenthesis") or a
    construct outside this subset ([[...]], [{m,n}], [|], [$], the other
    escapes, a repeat of a literal or of a group); the INFO block
    [sre_compile] emits in front of the program only speeds up the search
    and is left out. *)

From S2P Require Import Prelude Sre.

Module Regex.

Import Sre.

(** A node of the tree [sre_parse.parse] returns. *)
Inductive rnode :=
  | NAt                              (** [(AT, AT_BEGINNING)] *)
  | NLit (c : ascii)                 (** [(LITERAL, c)] *)
  | NAny                             (** [(ANY, None)] *)
  | NNotWord                         (** [(IN, [(CATEGORY, CATEGORY_NOT_WORD)])] *)
  | NRepeat (lazy : bool) (mn : nat) (mx : option nat) (item : rnode)
                                     (** [(MAX_REPEAT | MIN_REPEAT, (mn, mx, item))] *)
  | NSub (gid : nat) (body : list rnode).  (** [(SUBPATTERN, (gid, body))] *)

(** The bounds of a repeat operator. *)
Definition repeat_bounds (q : ascii) : nat * option nat :=
  if bool_decide (q = "*"%char) then (0, None)
  else if bool_decide (q = "+"%char) then (1, None)
  else (0, Some 1).

Definition is_repeat_char (q : ascii) : bool := bool_decide (q ∈ ⟪"*+?"⟫).

(** Bytes with a meaning of their own that this subset does not model. *)
Definition is_unmodelled_special (c : ascii) : bool := bool_decide (c ∈ ⟪"[{|$"⟫).

(** The loop of [_parse]: [acc] holds the nodes read so far (last first),
    [gid] the number the next group gets; a [)] is left for the caller. *)
Fixpoint parse_seq (fuel : nat) (s : text) (gid : nat) (acc : list rnode) :
    option (list rnode * text * nat) :=
  match fuel with
  | 0 => None
  | S fuel =>
      match s with
      | [] => Some (rev acc, [], gid)
      | c :: s' =>
          if bool_decide (c = ")"%char) then Some (rev acc, s, gid)
          else if is_repeat_char c then
            let '(mn, mx) := repeat_bounds c in
            let '(lazy, s'') := match s' with
                                | d :: r => if bool_decide (d = "?"%char) then (true, r)
                                            else (false, s')
                                | [] => (false, s')
                                end in
            match acc with
            | [] | NAt :: _ | NRepeat _ _ _ _ :: _ => None
            | item :: acc' => parse_seq fuel s'' gid (NRepeat lazy mn mx item :: acc')
            end
          else if bool_decide (c = "("%char) then
            match parse_seq fuel s' (S gid) [] with
            | Some (body, d :: rest, gid') =>
                if bool_decide (d = ")"%char) then parse_seq fuel rest gid' (NSub gid body :: acc)
                else None
            | _ => None
            end
          else if bool_decide (c = "^"%char) then parse_seq fuel s' gid (NAt :: acc)
          else if bool_decide (c = "."%char) then parse_seq fuel s' gid (NAny :: acc)
          else if bool_decide (c = backslash) then
            match s' with
            | [] => None
            | e :: s'' =>
                if bool_decide (e = "W"%char) then parse_seq fuel s'' gid (NNotWord :: acc)
                else if is_word e then None
                else parse_seq fuel s'' gid (NLit e :: acc)
            end
          else if is_unmodelled_special c then None
          else parse_seq fuel s' gid (NLit c :: acc)
      end
  end.

(** [sre_parse.parse(pattern)]: the whole text must be read; one step of
    fuel per byte is enough. *)
Definition re_parse (p : text) : option (list rnode) :=
  match parse_seq (S (length p)) p 1 [] with
  | Some (nodes, [], _) => Some nodes
  | _ => None
  end.

(** The single-byte set a [_simple] repeat runs over. *)
Definition item_set (dotall : bool) (n : rnode) : option sre_set :=
  match n with
  | NAny => if dotall then Some ANY_ALL else None
  | NNotWord => Some CATEGORY_NOT_WORD
  | _ => None
  end.

(** [_compile] for one node. *)
Fixpoint compile_node (dotall : bool) (n : rnode) : option (list sre_op) :=
  match n with
  | NAt => Some [AT_BEGINNING]
  | NLit c => Some [LITERAL c]
  | NAny | NNotWord => None
  | NRepeat lazy mn mx item =>
      st ← item_set dotall item;
      Some [if lazy then MIN_REPEAT_ONE mn mx st else REPEAT_ONE mn mx st]
  | NSub gid body =>
      ops ← (fix go (l : list rnode) : option (list sre_op) :=
               match l with
               | [] => Some []
               | x :: l => a ← compile_node dotall x; b ← go l; Some (a ++ b)
               end) body;
      Some (MARK (2 * gid - 2) :: ops ++ [MARK (2 * gid - 1)])
  end.

Fixpoint compile_list (dotall : bool) (l : list rnode) : option (list sre_op) :=
  match l with
  | [] => Some []
  | x :: l => a ← compile_node dotall x; b ← compile_list dotall l; Some (a ++ b)
  end.

(** The number of groups of a parsed pattern ([pattern.groups]). *)
Fixpoint count_groups (n : rnode) : nat :=
  match n with
  | NSub _ body => S (sum_list_with count_groups body)
  | NRepeat _ _ _ item => count_groups item
  | _ => 0
  end.

(** [sre_compile.compile(pattern, flags)] with its group count. *)
Definition re_compile (p : text) (dotall : bool) : option (list sre_op * nat) :=
  nodes ← re_parse p;
  ops ← compile_list dotall nodes;
  Some (ops, sum_list_with count_groups nodes).

(** The pattern of line 32, as written in the source. *)
Definition license_regex : text := ⟪"^\W*/\*\*(.+?)\*/"⟫.

(** ** Lemmas *)

(** What is left after [parse_seq] is a suffix of its input. *)
Lemma parse_seq_suffix fuel (s : text) gid acc nodes rest g :
  parse_seq fuel s gid acc = Some (nodes, rest, g) → rest `suffix_of` s.
Proof.
  revert s gid acc nodes rest g. induction fuel as [|n IH]; intros s gid acc nodes rest g; [done|].
  cbn [parse_seq]. destruct s as [|c s']; [by intros [= _ <- _]|].
  intros Hp. repeat case_match; simplify_eq; try done;
    repeat match goal with H : parse_seq _ _ _ _ = Some _ |- _ => apply IH in H end;
    repeat match goal with H : _ :: _ `suffix_of` _ |- _ => apply suffix_cons_l in H end;
    repeat match goal with H : ?a `suffix_of` _ |- ?a `suffix_of` _ =>
      etransitivity; [exact H|]; clear H end;
    repeat first [done | apply suffix_cons_r].
Qed.

(** Any fuel above the length of the text gives the same result. *)
Lemma parse_seq_fuel n m (s : text) gid acc :
  length s < n → n ≤ m → parse_seq n s gid acc = parse_seq m s gid acc.
Proof.
  revert m s gid acc. induction n as [|n IH]; intros m s gid acc Hn Hm; [lia|].
  destruct m as [|m]; [lia|]. cbn [parse_seq]. destruct s as [|c s']; [done|].
  cbn [length] in Hn. rewrite (IH m s' (S gid) []) by lia.
  repeat case_match; simplify_eq; try done;
    repeat match goal with H : parse_seq _ _ _ _ = Some _ |- _ =>
      apply parse_seq_suffix, suffix_length in H end;
    apply IH; cbn [length] in *; lia.
Qed.

Lemma license_regex_program : re_compile license_regex true = Some (license_pattern, 1).
Proof. vm_compute. reflexivity. Qed.

End Regex.
