(* ===== verification/Template.v ===== *)
(** The replacement template of [re.sub] (line 32 of
    src/code_license_replacer.py).

    The second argument of [re.sub] is not inserted verbatim: when it
    holds a backslash, [_sre.c] hands it to [re._subx], which parses it
    with [sre_parse.parse_template] into literal pieces and group
    references, and [sre_parse.expand_template] fills the references in
    from the match.  The header of line 32 embeds the file's base name and
    the license text, so a backslash in either is interpreted: [\n] becomes
    a newline, [\1] the text of the old comment, [\2] an error.

    [tk_read], [tk_get] and [tk_match] are the [Tokenizer] of [sre_parse]
    (one token of look-ahead, a token is a byte or a backslash and the next
    byte); [parse_loop] is the [while 1] loop of [parse_template], with fuel
    ([parse_template_total] shows the fuel given is always enough);
    [compile_repl] adds the literal fast path of [pattern_subx].
    [parse_template_group] parses a template of plain bytes around one
    group reference, the shape a license line holding [\2] gives. *)

From S2P Require Import Prelude PyStr.

Module Template.

(** A compiled template: the pieces [(LITERAL, s)] and [(MARK, index)]. *)
Inductive titem :=
  | TLit (t : text)
  | TGroup (n : nat).

(** What [pattern_subx] uses as filter: the string itself, or a template. *)
Inductive repl :=
  | ReplLiteral (t : text)
  | ReplTemplate (items : list titem).

Definition err (msg : string) : py_exc := SreError (list_ascii_of_string msg).

(** ** The tokenizer *)

(** [Tokenizer.__next]: the next token of [s] and the rest. *)
Definition tk_read (s : text) : res (option text * text) :=
  match s with
  | [] => Ok (None, [])
  | c :: s' =>
      if bool_decide (c = backslash) then
        match s' with
        | [] => Err (err "bogus escape (end of line)")
        | d :: s'' => Ok (Some [c; d], s'')
        end
      else Ok (Some [c], s')
  end.

(** The tokenizer state: [self.next] and the unread bytes. *)
Record tokenizer := Tk { tk_next : option text; tk_rest : text }.

(** [Tokenizer(source)] reads the first token at once. *)
Definition tk_init (s : text) : res tokenizer :=
  '(n, r) ← tk_read s; Ok (Tk n r).

(** [get]: return [self.next] and read the following token. *)
Definition tk_get (tk : tokenizer) : res (option text * tokenizer) :=
  '(n, r) ← tk_read (tk_rest tk); Ok (tk_next tk, Tk n r).

(** [match(char)]: consume [char] if it is the next token. *)
Definition tk_match (c : ascii) (tk : tokenizer) : res (bool * tokenizer) :=
  if bool_decide (tk_next tk = Some [c]) then
    '(_, tk') ← tk_get tk; Ok (true, tk')
  else Ok (false, tk).

(** [s.next in DIGITS] / [in OCTDIGITS]: only a one-byte token can be in. *)
Definition next_in (P : ascii → bool) (tk : tokenizer) : bool :=
  match tk_next tk with Some [c] => P c | _ => false end.

(** ** Numbers and names *)

Definition digit_val (c : ascii) : nat := nat_of_ascii c - 48.

Definition digits_val (base : nat) (ds : text) : nat :=
  fold_left (λ acc d, acc * base + digit_val d) ds 0.

(** [int(name)] of Python 2 in base 10: surrounding whitespace, an
    optional sign, at least one digit; [None] is [ValueError]. *)
Definition py_int (s : text) : option Z :=
  let body := PyStr.strip s in
  let '(neg, ds) := match body with
                    | "-"%char :: ds => (true, ds)
                    | "+"%char :: ds => (false, ds)
                    | _ => (false, body)
                    end in
  if bool_decide (ds ≠ []) && forallb is_digit ds then
    let v := Z.of_nat (digits_val 10 ds) in Some (if neg then (- v)%Z else v)
  else None.

(** [isname]: an identifier ([isident] then [isident] or [isdigit]). *)
Definition is_ident (c : ascii) : bool :=
  in_range 97 122 c || in_range 65 90 c || bool_decide (c = "_"%char).

Definition isname (s : text) : bool :=
  match s with
  | [] => false
  | c :: r => is_ident c && forallb (λ d, is_ident d || is_digit d) r
  end.

(** [ESCAPES] of [sre_parse]: the one-byte meaning of a two-byte escape. *)
Definition escapes : list (ascii * ascii) :=
  [("a", "007"); ("b", "008"); ("f", "012"); ("n", "010");
   ("r", "013"); ("t", "009"); ("v", "011"); ("092", "092")]%char.

Definition escape (c : ascii) : option ascii :=
  snd <$> find (λ p, bool_decide (p.1 = c)) escapes.

(** [literal(...)]: merge with a preceding literal piece ([p] is reversed). *)
Definition add_literal (p : list titem) (t : text) : list titem :=
  match p with
  | TLit t0 :: p' => TLit (t0 ++ t) :: p'
  | _ => TLit t :: p
  end.

(** [makechar(int(digits, 8) & 0xff)] *)
Definition oct_char (ds : text) : text :=
  [ascii_of_N (Z.to_N (Z.land (Z.of_nat (digits_val 8 ds)) 255))].

(** The index of [\g<name>]: the checks after the name is read. *)
Definition group_index (name : text) : res nat :=
  if bool_decide (name = []) then Err (err "missing group name") else
  match py_int name with
  | Some z => if (z <? 0)%Z then Err (err "negative group number") else Ok (Z.to_nat z)
  | None => if isname name then Err (IndexErr ⟪"unknown group name"⟫)
            else Err (err "bad character in group name")
  end.

(** ** The parser, with fuel: [None] is fuel exhausted *)

Definition fres (A : Type) := option (res A).

Definition fbind {A B} (m : fres A) (f : A → fres B) : fres B :=
  match m with
  | None => None
  | Some (Err e) => Some (Err e)
  | Some (Ok a) => f a
  end.

(** The [while 1] loop reading [\g<...>] up to [">"]. *)
Fixpoint read_name (fuel : nat) (tk : tokenizer) (name : text) : fres (text * tokenizer) :=
  match fuel with
  | 0 => None
  | S fuel =>
      match tk_get tk with
      | Err e => Some (Err e)
      | Ok (None, _) => Some (Err (err "unterminated group name"))
      | Ok (Some ch, tk) =>
          if bool_decide (ch = [">"%char]) then Some (Ok (name, tk))
          else read_name fuel tk (name ++ ch)
      end
  end.

(** [if s.next in OCTDIGITS: this = this + sget()], at most [n] times. *)
Fixpoint more_octdigits (n : nat) (tk : tokenizer) (acc : text) : res (text * tokenizer) :=
  match n with
  | 0 => Ok (acc, tk)
  | S n =>
      if next_in is_octdigit tk then
        '(d, tk) ← tk_get tk; more_octdigits n tk (acc ++ default [] d)
      else Ok (acc, tk)
  end.

(** The body of the [while 1] loop of [parse_template]. *)
Fixpoint parse_loop (fuel : nat) (tk : tokenizer) (p : list titem) : fres (list titem) :=
  match fuel with
  | 0 => None
  | S fuel =>
      match tk_get tk with
      | Err e => Some (Err e)
      | Ok (None, _) => Some (Ok (rev p))
      | Ok (Some this, tk) =>
          match this with
          | [b; c] =>
              if bool_decide (c = "g"%char) then
                match tk_match "<" tk with
                | Err e => Some (Err e)
                | Ok (m, tk) =>
                    fbind (if m then read_name fuel tk [] else Some (Ok ([], tk)))
                      (λ '(name, tk),
                         match group_index name with
                         | Err e => Some (Err e)
                         | Ok i => parse_loop fuel tk (TGroup i :: p)
                         end)
                end
              else if bool_decide (c = "0"%char) then
                match more_octdigits 2 tk [c] with
                | Err e => Some (Err e)
                | Ok (ds, tk) => parse_loop fuel tk (add_literal p (oct_char ds))
                end
              else if is_digit c then
                if next_in is_digit tk then
                  match tk_get tk with
                  | Err e => Some (Err e)
                  | Ok (d, tk) =>
                      let d := default [] d in
                      if is_octdigit c && forallb is_octdigit d && next_in is_octdigit tk then
                        match tk_get tk with
                        | Err e => Some (Err e)
                        | Ok (e, tk) =>
                            parse_loop fuel tk (add_literal p (oct_char (c :: d ++ default [] e)))
                        end
                      else parse_loop fuel tk (TGroup (digits_val 10 (c :: d)) :: p)
                  end
                else parse_loop fuel tk (TGroup (digit_val c) :: p)
              else
                let lit := match escape c with Some e => [e] | None => this end in
                parse_loop fuel tk (add_literal p lit)
          | _ => parse_loop fuel tk (add_literal p this)
          end
      end
  end.

(** [sre_parse.parse_template(source, pattern)]; each loop iteration reads
    a token, so [S (length source)] iterations are enough. *)
Definition parse_template (source : text) : fres (list titem) :=
  match tk_init source with
  | Err e => Some (Err e)
  | Ok tk => parse_loop (S (length source)) tk []
  end.

(** [pattern_subx]: a template without backslash is used as it is,
    otherwise it goes through [re._subx]. *)
Definition compile_repl (source : text) : res repl :=
  if bool_decide (backslash ∈ source) then
    match parse_template source with
    | Some (Ok items) => Ok (ReplTemplate items)
    | Some (Err e) => Err e
    | None => Err (err "parse_template: fuel")
    end
  else Ok (ReplLiteral source).

(** ** Expansion *)

Definition mark_lookup (n : nat) (m : list (nat * nat)) : option nat :=
  snd <$> find (λ p, bool_decide (p.1 = n)) m.

(** [match.group(g)] of a match of [s] from [st] to [e] with marks [m], for
    a pattern of [ngroups] groups: [None] is [IndexError] (no such group),
    [Some None] an unmatched group. *)
Definition group_text (ngroups : nat) (s : text) (st e : nat) (m : list (nat * nat))
    (g : nat) : option (option text) :=
  if bool_decide (g = 0) then Some (Some (take (e - st) (drop st s)))
  else if bool_decide (g ≤ ngroups) then
    Some (match mark_lookup (2 * g - 2) m, mark_lookup (2 * g - 1) m with
          | Some a, Some b => Some (take (b - a) (drop a s))
          | _, _ => None
          end)
  else None.

(** [sre_parse.expand_template(template, match)] *)
Fixpoint expand_items (ngroups : nat) (s : text) (st e : nat) (m : list (nat * nat))
    (items : list titem) : res text :=
  match items with
  | [] => Ok []
  | TLit t :: items => r ← expand_items ngroups s st e m items; Ok (t ++ r)
  | TGroup g :: items =>
      match group_text ngroups s st e m g with
      | None => Err (err "invalid group reference")
      | Some None => Err (err "unmatched group")
      | Some (Some t) => r ← expand_items ngroups s st e m items; Ok (t ++ r)
      end
  end.

Definition expand (ngroups : nat) (r : repl) (s : text) (st e : nat)
    (m : list (nat * nat)) : res text :=
  match r with
  | ReplLiteral t => Ok t
  | ReplTemplate items => expand_items ngroups s st e m items
  end.

(** ** The fuel of [parse_template] is always enough *)

(** The bytes the tokenizer has not handed out yet. *)
Definition tk_size (tk : tokenizer) : nat :=
  length (default [] (tk_next tk)) + length (tk_rest tk).

(** A tokenizer has no next token only at the end of its input, and its
    tokens are not empty. *)
Definition tk_wf (tk : tokenizer) : Prop :=
  match tk_next tk with None => tk_rest tk = [] | Some t => t ≠ [] end.

Lemma tk_read_ok (s r : text) n :
  tk_read s = Ok (n, r) → tk_wf (Tk n r) ∧ length (default [] n) + length r = length s.
Proof.
  destruct s as [|c s]; simpl.
  - by intros [= <- <-].
  - case_bool_decide.
    + destruct s as [|d s]; [done|]. by intros [= <- <-].
    + by intros [= <- <-].
Qed.

Lemma tk_init_ok (s : text) tk : tk_init s = Ok tk → tk_wf tk ∧ tk_size tk = length s.
Proof.
  unfold tk_init. destruct (tk_read s) as [[n r]|] eqn:E; [|done].
  intros [= <-]. by apply tk_read_ok in E.
Qed.

Lemma tk_get_ok tk this tk' :
  tk_wf tk → tk_get tk = Ok (this, tk') →
  tk_wf tk' ∧ this = tk_next tk ∧ tk_size tk' + length (default [] this) = tk_size tk.
Proof.
  unfold tk_get. destruct (tk_read (tk_rest tk)) as [[n r]|] eqn:E; [|done].
  intros Hwf [= <- <-]. apply tk_read_ok in E as [? Hl].
  split; [done|]. split; [done|]. unfold tk_size in *. simpl. lia.
Qed.

(** Reading a token shrinks what is left. *)
Lemma tk_get_some tk t tk' :
  tk_wf tk → tk_get tk = Ok (Some t, tk') → tk_wf tk' ∧ tk_size tk' < tk_size tk.
Proof.
  intros Hwf Hg. destruct (tk_get_ok _ _ _ Hwf Hg) as (? & Hn & Hs).
  split; [done|]. unfold tk_wf in Hwf. rewrite <-Hn in Hwf.
  destruct t; simpl in *; [done|lia].
Qed.

Lemma tk_get_le tk this tk' :
  tk_wf tk → tk_get tk = Ok (this, tk') → tk_wf tk' ∧ tk_size tk' ≤ tk_size tk.
Proof. intros Hwf Hg. destruct (tk_get_ok _ _ _ Hwf Hg) as (? & _ & ?). split; [done|lia]. Qed.

Lemma tk_match_le c tk m tk' :
  tk_wf tk → tk_match c tk = Ok (m, tk') → tk_wf tk' ∧ tk_size tk' ≤ tk_size tk.
Proof.
  unfold tk_match. case_bool_decide.
  - destruct (tk_get tk) as [[x t']|] eqn:E; [|done]. intros Hwf [= <- <-].
    by apply (tk_get_le _ _ _ Hwf E).
  - intros ? [= <- <-]. done.
Qed.

Lemma more_octdigits_le n tk acc ds tk' :
  tk_wf tk → more_octdigits n tk acc = Ok (ds, tk') → tk_wf tk' ∧ tk_size tk' ≤ tk_size tk.
Proof.
  revert tk acc. induction n as [|n IH]; intros tk acc Hwf; simpl.
  - by intros [= <- <-].
  - destruct (next_in is_octdigit tk); [|by intros [= <- <-]].
    destruct (tk_get tk) as [[d t1]|] eqn:E; [|done]. simpl. intros Hm.
    destruct (tk_get_le _ _ _ Hwf E). destruct (IH _ _ ltac:(done) Hm). split; [done|lia].
Qed.

Lemma read_name_total fuel tk name :
  tk_wf tk → tk_size tk < fuel →
  read_name fuel tk name ≠ None ∧
  ∀ nm tk', read_name fuel tk name = Some (Ok (nm, tk')) →
    tk_wf tk' ∧ tk_size tk' ≤ tk_size tk.
Proof.
  revert tk name. induction fuel as [|fuel IH]; intros tk name Hwf Hf; [lia|]. simpl.
  destruct (tk_get tk) as [[[ch|] t1]|] eqn:E; [|split; [done|]; intros; simplify_eq..].
  destruct (tk_get_some _ _ _ Hwf E) as [Hwf1 Hlt].
  case_bool_decide.
  - split; [done|]. intros ?? [= <- <-]. split; [done|lia].
  - destruct (IH t1 (name ++ ch)) as [IH1 IH2]; [done|lia|]. split; [done|].
    intros nm tk' Hr. destruct (IH2 _ _ Hr). split; [done|lia].
Qed.

(** Close a recursive call of [parse_loop] with the induction hypothesis. *)
Ltac tk_step IH :=
  repeat match goal with
  | H : tk_get ?tk = Ok (_, _), W : tk_wf ?tk |- _ =>
      destruct (tk_get_le _ _ _ W H); clear H
  | H : tk_match _ ?tk = Ok (_, _), W : tk_wf ?tk |- _ =>
      destruct (tk_match_le _ _ _ _ W H); clear H
  | H : more_octdigits _ ?tk _ = Ok (_, _), W : tk_wf ?tk |- _ =>
      destruct (more_octdigits_le _ _ _ _ _ W H); clear H
  end;
  simpl; apply IH; [done|lia].

Lemma parse_loop_total fuel tk p :
  tk_wf tk → tk_size tk < fuel → parse_loop fuel tk p ≠ None.
Proof.
  revert tk p. induction fuel as [|fuel IH]; intros tk p Hwf Hf; [lia|]. cbn [parse_loop].
  destruct (tk_get tk) as [[[this|] t1]|] eqn:E; [|done|done].
  destruct (tk_get_some _ _ _ Hwf E) as [W1 Hlt]. clear E.
  destruct this as [|b [|c [|? ?]]]; [tk_step IH|tk_step IH| |tk_step IH].
  case_bool_decide.
  { destruct (tk_match "<" t1) as [[m t2]|] eqn:E2; [|done].
    destruct (tk_match_le _ _ _ _ W1 E2) as [W2 ?]. unfold fbind. destruct m.
    - destruct (read_name_total fuel t2 [] W2 ltac:(lia)) as [R1 R2].
      destruct (read_name fuel t2 []) as [[[name t3]|]|] eqn:E3; [|done|done].
      destruct (R2 _ _ eq_refl).
      destruct (group_index name); [tk_step IH|done].
    - destruct (group_index []); [tk_step IH|done]. }
  case_bool_decide.
  { destruct (more_octdigits 2 t1 [c]) as [[ds t2]|] eqn:E2; [tk_step IH|done]. }
  destruct (is_digit c); [|tk_step IH].
  destruct (next_in is_digit t1); [|tk_step IH].
  destruct (tk_get t1) as [[d t2]|] eqn:E2; [|done].
  destruct (tk_get_le _ _ _ W1 E2) as [W2 ?]. clear E2.
  destruct (_ && _ && _); [|tk_step IH].
  destruct (tk_get t2) as [[e t3]|] eqn:E3; [tk_step IH|done].
Qed.

(** C22: [parse_template] never runs out of fuel: one iteration per byte of
    the template is enough, so the fuel-exhausted branch of [compile_repl]
    is dead and the parser terminates on every template. *)
Theorem parse_template_total (source : text) : parse_template source ≠ None.
Proof.
  unfold parse_template. destruct (tk_init source) as [tk|] eqn:E; [|done].
  destruct (tk_init_ok _ _ E) as [? Hs]. apply parse_loop_total; [done|lia].
Qed.

(** ** A template with one group reference *)

Lemma add_literal_app (p : list titem) (x y : text) :
  add_literal (add_literal p x) y = add_literal p (x ++ y).
Proof. destruct p as [|[t0|g] p]; cbn; by rewrite ?app_assoc. Qed.

Lemma tk_read_plain d (r : text) : d ≠ backslash → tk_read (d :: r) = Ok (Some [d], r).
Proof. intros Hd. unfold tk_read. by rewrite bool_decide_eq_false_2. Qed.

(** One plain byte is one literal piece. *)
Lemma parse_loop_byte fuel c (rest rest' : text) n p :
  tk_read rest = Ok (n, rest') →
  parse_loop (S fuel) (Tk (Some [c]) rest) p = parse_loop fuel (Tk n rest') (add_literal p [c]).
Proof. intros H. cbn [parse_loop]. unfold tk_get. cbn [tk_rest tk_next]. by rewrite H. Qed.

(** A run of plain bytes followed by more text is parsed into one literal
    piece, one loop iteration per byte. *)
Lemma parse_loop_plain fuel c (r rest rest' : text) n p :
  backslash ∉ c :: r → tk_read rest = Ok (n, rest') →
  parse_loop (S (length r) + fuel) (Tk (Some [c]) (r ++ rest)) p =
  parse_loop fuel (Tk n rest') (add_literal p (c :: r)).
Proof.
  revert c p. induction r as [|d r IH]; intros c p Hb Hrest; [by apply parse_loop_byte|].
  change (S (length (d :: r)) + fuel) with (S (S (length r) + fuel)).
  rewrite (parse_loop_byte _ _ _ (r ++ rest) (Some [d])) by (apply tk_read_plain; set_solver).
  rewrite IH by set_solver. by rewrite add_literal_app.
Qed.

(** A run of plain bytes up to the end is one literal piece. *)
Lemma parse_loop_literal fuel c (r : text) p :
  backslash ∉ c :: r → S (length r) < fuel →
  parse_loop fuel (Tk (Some [c]) r) p = Some (Ok (rev (add_literal p (c :: r)))).
Proof.
  intros Hb Hf.
  pose proof (parse_loop_plain (S (fuel - S (S (length r)))) c r [] [] None p Hb eq_refl) as H.
  rewrite app_nil_r in H. replace fuel with (S (length r) + S (fuel - S (S (length r)))) by lia.
  by rewrite H.
Qed.

(** [\d] for a digit [d] other than [0], not followed by a digit, is a
    reference to group [d]. *)
Lemma parse_loop_group fuel d (b0 : ascii) (b rest : text) p :
  is_digit d = true → d ≠ "0"%char → b0 ≠ backslash → is_digit b0 = false →
  parse_loop (S fuel) (Tk (Some [backslash; d]) (b0 :: b)) p =
  parse_loop fuel (Tk (Some [b0]) b) (TGroup (digit_val d) :: p).
Proof.
  intros Hd Hd0 Hb0 Hnd. cbn [parse_loop]. unfold tk_get. cbn [tk_rest tk_next].
  rewrite tk_read_plain by done. cbn [mbind res_bind].
  rewrite bool_decide_eq_false_2 by (intros ->; discriminate Hd).
  rewrite bool_decide_eq_false_2 by done. rewrite Hd. unfold next_in. cbn [tk_next].
  by rewrite Hnd.
Qed.

(** [parse_template] of plain text, [\d] and plain text not starting with
    a digit: a literal, the group reference, a literal. *)
Lemma parse_template_group (a b : text) d :
  a ≠ [] → b ≠ [] → backslash ∉ a → backslash ∉ b →
  is_digit d = true → d ≠ "0"%char → (∀ c, head b = Some c → is_digit c = false) →
  parse_template (a ++ [backslash; d] ++ b) = Some (Ok [TLit a; TGroup (digit_val d); TLit b]).
Proof.
  intros Ha Hbn Hba Hbb Hd Hd0 Hhd.
  destruct a as [|c a]; [done|]. destruct b as [|b0 b]; [done|].
  unfold parse_template, tk_init. rewrite <-app_comm_cons, tk_read_plain by set_solver.
  cbn [mbind res_bind].
  assert (S (length (c :: a ++ [backslash; d] ++ b0 :: b)) =
          S (length a) + S (S (length b) + 2)) as -> by (rewrite length_cons, !length_app; cbn; lia).
  rewrite (parse_loop_plain _ _ _ _ (b0 :: b) (Some [backslash; d])) by done.
  rewrite parse_loop_group by (set_solver || by apply Hhd).
  rewrite parse_loop_literal by (set_solver || lia). done.
Qed.

(** Expanding a reference to a group the pattern does not have raises
    [invalid group reference], whatever comes before it. *)
Lemma expand_items_bad_group ngroups (s : text) st e m (t : text) g items :
  ngroups < g →
  expand_items ngroups s st e m (TLit t :: TGroup g :: items) =
  Err (err "invalid group reference").
Proof.
  intros Hg. cbn [expand_items]. unfold group_text.
  rewrite !bool_decide_eq_false_2 by lia. done.
Qed.

Lemma digit_val_ge_2 d : is_digit d = true → d ≠ "0"%char → d ≠ "1"%char → 2 ≤ digit_val d.
Proof.
  unfold is_digit, in_range, digit_val. rewrite andb_true_iff, !Nat.leb_le. intros Hr H0 H1.
  destruct (decide (nat_of_ascii d = 48)) as [E|]; [exfalso; apply H0; rewrite <-(ascii_nat_embedding d), E; done|].
  destruct (decide (nat_of_ascii d = 49)) as [E|]; [exfalso; apply H1; rewrite <-(ascii_nat_embedding d), E; done|].
  lia.
Qed.

End Template.
