(* ===== verification/Substitute.v ===== *)
(** The substitution of line 32 of src/code_license_replacer.py:
    [re.sub(pattern, header, fileText, count=1, flags=re.DOTALL)].

    [re_sub] is [pattern.sub] with [count=1] as [pattern_subx] of
    [_sre.c] runs it: the template is compiled first (so a bad template
    raises even when nothing matches), then the first match is searched
    and replaced by the expanded template.  [rewrite_text] is the whole
    right-hand side of line 32 for one file.

    The theorems give its behaviour when the file starts with a block
    ([rewrite_text_block_eq]), when it does not ([rewrite_text_no_block_eq]),
    the common shape of a leading block ([leading_block_intro]), the
    idempotence of the rewrite ([rewrite_text_fixed]) and how it fails
    when a license line holds ["*/"] ([rewrite_text_closer_grows]), the
    error of a group reference in the license
    ([rewrite_text_group_reference]) and the shortest text the pattern
    changes ([rewrite_text_short]). *)

From S2P Require Import Prelude PyStr License Sre Regex Template.

Module Substitute.

Import PyStr License Sre Regex Template.

(** [pattern.sub(repl, s, count=1)] for a pattern with [ngroups] groups. *)
Definition re_sub (prog : list sre_op) (ngroups : nat) (repl s : text) : res text :=
  r ← compile_repl repl;
  match sre_search prog s with
  | None => Ok s
  | Some (st, e, m) =>
      t ← expand ngroups r s st e m;
      Ok (take st s ++ t ++ drop e s)
  end.

(** Line 32: [re.sub(r"^\W*/\*\*(.+?)\*/", "/**\n * " +
    os.path.basename(fileName) + "\n * \n" + licenseText + " */",
    fileText, count=1, flags=re.DOTALL)]: the pattern is compiled with
    DOTALL (the [None] branch is dead: [license_regex_program]), then
    [pattern.sub] runs with the compiled program and its group count. *)
Definition rewrite_text (licenseText fileName fileText : text) : res text :=
  match re_compile license_regex true with
  | Some (prog, ngroups) =>
      re_sub prog ngroups (header (basename fileName) licenseText) fileText
  | None => Err (SreError ⟪"re.compile"⟫)
  end.

(** The header between its ["/**"] and its final ["*/"]. *)
Definition header_body (name lt : text) : text :=
  [newline] ++ ⟪" * "⟫ ++ name ++ [newline] ++ ⟪" * "⟫ ++ [newline] ++ lt ++ ⟪" "⟫.

(** ** Lemmas *)

Lemma rewrite_text_unfold (lt fn s : text) :
  rewrite_text lt fn s = re_sub license_pattern 1 (header (basename fn) lt) s.
Proof. unfold rewrite_text. by rewrite license_regex_program. Qed.

(** Without a backslash the replacement is inserted as it is. *)
Lemma re_sub_literal (repl s : text) :
  backslash ∉ repl →
  re_sub license_pattern 1 repl s =
  match sre_search license_pattern s with
  | None => Ok s
  | Some (st, e, m) => Ok (take st s ++ repl ++ drop e s)
  end.
Proof.
  intros Hb. unfold re_sub, compile_repl. rewrite bool_decide_eq_false_2 by done.
  simpl. by destruct (sre_search _ _) as [[[st e] m]|].
Qed.

(** a file whose text has a leading block (the last admissible
    ["/**"] of the leading non-word run up to the first ["*/"] at least one
    byte later) becomes the header followed by the text after that ["*/"],
    provided the header holds no backslash. *)
Lemma rewrite_text_block_eq (lt fn s : text) k j :
  backslash ∉ header (basename fn) lt →
  leading_block s k j →
  rewrite_text lt fn s = Ok (header (basename fn) lt ++ drop (j + 2) s).
Proof.
  intros Hb Hblk. rewrite rewrite_text_unfold. rewrite re_sub_literal by done.
  destruct (sre_search_license_spec s) as [k' j' Hblk'|Hn].
  - destruct (leading_block_unique _ _ _ _ _ Hblk Hblk') as [_ <-]. done.
  - exfalso. by apply (Hn k), (leading_block_opener _ _ j).
Qed.

(** a file without an admissible opener is left byte for byte as it
    is, provided the header holds no backslash. *)
Lemma rewrite_text_no_block_eq (lt fn s : text) :
  backslash ∉ header (basename fn) lt →
  (∀ k, ¬ opener_ok s k) →
  rewrite_text lt fn s = Ok s.
Proof.
  intros Hb Hn. rewrite rewrite_text_unfold. rewrite re_sub_literal by done.
  destruct (sre_search_license_spec s) as [k j Hblk|]; [|done].
  exfalso. by apply (Hn k), (leading_block_opener _ _ j).
Qed.

(** Positions inside [ws ++ "/**" ++ b ++ "*/" ++ rest]. *)
Lemma block_lookup_b (ws b rest : text) i :
  i < length b → (ws ++ ⟪"/**"⟫ ++ b ++ ⟪"*/"⟫ ++ rest) !! (length ws + 3 + i) = b !! i.
Proof.
  intros Hi. rewrite <-Nat.add_assoc, lookup_app_add. simpl.
  by rewrite lookup_app_l by done.
Qed.

Lemma block_has_at (ws b rest : text) i p :
  has_at (ws ++ ⟪"/**"⟫ ++ b ++ ⟪"*/"⟫ ++ rest) (length ws + 3 + i) p =
  has_at (b ++ ⟪"*/"⟫ ++ rest) i p.
Proof.
  rewrite <-Nat.add_assoc, has_at_app_r.
  change (3 + i) with (length ⟪"/**"⟫ + i). by rewrite has_at_app_r.
Qed.

(** The usual shape: non-word bytes other than ['/'], ["/**"], a body
    [b] that has a word byte before any slash and holds no ["*/"], then
    ["*/"]: the match is exactly that block. *)
Lemma leading_block_intro (ws b rest : text) w c :
  Forall (λ x, is_word x = false ∧ x ≠ "/"%char) ws →
  b !! w = Some c → is_word c = true → "/"%char ∉ take w b →
  no_pair "*" "/" b →
  leading_block (ws ++ ⟪"/**"⟫ ++ b ++ ⟪"*/"⟫ ++ rest)
    (length ws) (length ws + 3 + length b).
Proof.
  intros Hws Hw Hc Hslash Hnp. pose proof (lookup_lt_Some _ _ _ Hw) as Hwl.
  split; [|split; [|split; [lia|split; [|split]]]].
  - intros i Hi. rewrite lookup_app_l by done.
    destruct (lookup_lt_is_Some_2 ws i Hi) as [x Hx].
    exists x. split; [done|]. by destruct (Forall_lookup_1 _ _ _ _ Hws Hx).
  - rewrite <-(Nat.add_0_r (length ws)), has_at_app_r. apply has_at_prefix.
  - rewrite <-(Nat.add_0_r (length b)), block_has_at, has_at_app_r. apply has_at_prefix.
  - intros j' Hj. replace j' with (length ws + 3 + (j' - length ws - 3)) by lia.
    rewrite block_has_at. destruct (decide (j' - length ws - 3 + 2 ≤ length b)).
    + rewrite has_at_app_l by done. apply Hnp.
    + destruct (has_at _ _ _) eqn:E; [|done]. apply has_at_two in E as [_ E].
      rewrite lookup_app_r in E by lia.
      by replace (S (j' - length ws - 3) - length b) with 0 in E by lia.
  - intros k' Hk (Hpre & Ho & _). apply has_at_cons in Ho as [Ho _].
    destruct (decide (k' ≤ length ws + 3 + w)) as [Hle|Hgt].
    + destruct (decide (k' < length ws + 3)).
      * rewrite lookup_app_r in Ho by lia.
        destruct (k' - length ws) as [|[|[|]]] eqn:E; simpl in Ho; try done; lia.
      * replace k' with (length ws + 3 + (k' - length ws - 3)) in Ho by lia.
        rewrite block_lookup_b in Ho by lia.
        destruct (decide (k' - length ws - 3 = w)) as [E|].
        -- rewrite E, Hw in Ho. injection Ho as ->. done.
        -- apply Hslash. apply list_elem_of_lookup_2 with (k' - length ws - 3).
           rewrite lookup_take_lt by lia. done.
    + destruct (Hpre (length ws + 3 + w)) as (x & Hx & Hnw); [lia|].
      rewrite block_lookup_b, Hw in Hx by lia. injection Hx as <-. congruence.
Qed.

(** ** Idempotence *)

Lemma header_split (name lt : text) :
  header name lt = ⟪"/**"⟫ ++ header_body name lt ++ ⟪"*/"⟫.
Proof. unfold header, header_body, hdr_open, hdr_sep, hdr_close. by rewrite <-!app_assoc. Qed.

Lemma license_text_no_closer (lines : list text) :
  (∀ l, l ∈ lines → contains ⟪"*/"⟫ l = false) →
  no_pair "*" "/" (license_text lines).
Proof.
  rewrite license_text_concat. induction lines as [|l lines IH]; intros Hl; cbn [map concat].
  { apply no_pair_nil. }
  assert (no_pair "*" "/" (strip l)).
  { destruct (strip_split l) as (a & b & Hs & _).
    apply (no_pair_infix _ _ a _ b). rewrite <-Hs. apply no_pair_contains, Hl. set_solver. }
  unfold license_line. rewrite <-!app_assoc.
  apply no_pair_app; [apply no_pair_not_in_r; not_in_lit| |by left].
  apply no_pair_app; [done| |right; done].
  apply no_pair_app; [apply no_pair_not_in; not_in_lit| |left; done].
  apply IH. set_solver.
Qed.

Lemma license_text_no_backslash (lines : list text) :
  (∀ l, l ∈ lines → backslash ∉ l) → backslash ∉ license_text lines.
Proof.
  intros Hl. rewrite license_text_concat.
  intros H. apply list_elem_of_In, in_concat in H as (x & Hin & Hx).
  apply in_map_iff in Hin as (l & <- & Hl'%list_elem_of_In).
  apply list_elem_of_In in Hx. revert Hx. unfold license_line.
  repeat (apply not_elem_of_app; split); try not_in_lit.
  destruct (strip_split l) as (a & b & Hs & _). intros Hin. apply (Hl l Hl').
  rewrite Hs. set_solver.
Qed.

Lemma header_no_backslash (name : text) (lines : list text) :
  backslash ∉ name → (∀ l, l ∈ lines → backslash ∉ l) →
  backslash ∉ header name (license_text lines).
Proof.
  intros Hn Hl. pose proof (license_text_no_backslash lines Hl).
  unfold header, hdr_open, hdr_sep, hdr_close.
  repeat (apply not_elem_of_app; split); try not_in_lit; done.
Qed.

(** The header of line 32 is itself a leading block, ending at its own
    final ["*/"], when the name has a word byte and the license lines hold
    no ["*/"]. *)
Lemma header_leading_block (name : text) (lines : list text) (rest : text) c :
  "/"%char ∉ name → c ∈ name → is_word c = true →
  (∀ l, l ∈ lines → contains ⟪"*/"⟫ l = false) →
  leading_block (header name (license_text lines) ++ rest)
    0 (3 + length (header_body name (license_text lines))).
Proof.
  intros Hs Hc Hw Hl. apply list_elem_of_lookup_1 in Hc as [i Hi].
  pose proof (lookup_lt_Some _ _ _ Hi).
  rewrite header_split, <-!app_assoc.
  apply (leading_block_intro [] _ rest (4 + i) c); [constructor| |done| |].
  - unfold header_body. simpl. by rewrite lookup_app_l.
  - unfold header_body. simpl. rewrite take_app_le by lia.
    rewrite !not_elem_of_cons. repeat split; try done.
    intros (i' & Hi' & _)%elem_of_take. apply Hs. by eapply list_elem_of_lookup_2.
  - unfold header_body. pose proof (license_text_no_closer lines Hl).
    apply no_pair_app; [apply no_pair_not_in; not_in_lit| |by left].
    apply no_pair_app; [apply no_pair_not_in_r; not_in_lit| |by left].
    apply no_pair_app; [by apply no_pair_not_in_r| |by right].
    apply no_pair_app; [apply no_pair_not_in; not_in_lit| |by left].
    apply no_pair_app; [apply no_pair_not_in_r; not_in_lit| |by left].
    apply no_pair_app; [apply no_pair_not_in; not_in_lit| |by left].
    apply no_pair_app; [done|apply no_pair_not_in; not_in_lit|by right].
Qed.

(** running the rewrite twice gives what running it once gives, when
    the base name has a word byte and no backslash, and no license line
    holds a backslash or ["*/"]. *)
Lemma rewrite_text_fixed (lines : list text) (fn s r : text) :
  backslash ∉ basename fn → (∃ c, c ∈ basename fn ∧ is_word c = true) →
  (∀ l, l ∈ lines → backslash ∉ l ∧ contains ⟪"*/"⟫ l = false) →
  rewrite_text (license_text lines) fn s = Ok r →
  rewrite_text (license_text lines) fn r = Ok r.
Proof.
  intros Hb (c & Hc & Hw) Hl Hr.
  assert (backslash ∉ header (basename fn) (license_text lines)) as Hh.
  { apply header_no_backslash; naive_solver. }
  revert Hr. rewrite rewrite_text_unfold. rewrite re_sub_literal by done.
  destruct (sre_search_license_spec s) as [k j _|Hn]; intros Hr;
    [|injection Hr as <-; by apply rewrite_text_no_block_eq].
  set (h := header (basename fn) (license_text lines)) in *.
  assert (r = h ++ drop (j + 2) s) as -> by (injection Hr as <-; reflexivity).
  rewrite (rewrite_text_block_eq _ _ _ 0 (3 + length (header_body (basename fn)
    (license_text lines)))); [|done|].
  - f_equal. f_equal. rewrite drop_app_length'; [done|].
    unfold h. rewrite header_split, !length_app. simpl. lia.
  - apply (header_leading_block _ _ _ c); [apply basename_split|done|done|naive_solver].
Qed.

(** ** A closer in the license *)

(** [strip] keeps every ["*/"] of a line: the bytes it removes are
    whitespace. *)
Lemma no_pair_strip (l : text) : no_pair "*" "/" (strip l) → no_pair "*" "/" l.
Proof.
  destruct (strip_split l) as (a & b & Hs & Ha & Hb & _). intros H. rewrite Hs.
  assert (∀ w x, Forall (λ c, is_space c = true) w → is_space x = false → x ∉ w) as Hsp.
  { intros w x Hw Hx Hin. rewrite Forall_forall in Hw. by rewrite (Hw x Hin) in Hx. }
  apply no_pair_app; [apply no_pair_not_in, Hsp; done| |].
  - apply no_pair_app; [done|apply no_pair_not_in, Hsp; done|].
    right. intros Hh%head_Some_elem_of. by apply (Hsp b "/"%char).
  - left. intros Hh%last_Some_elem_of. by apply (Hsp a "*"%char).
Qed.

(** A license line holding ["*/"] puts a ["*/"] inside the header, after
    the name line and at least six bytes before the header's end. *)
Lemma header_closer (name : text) (lines : list text) :
  (∃ l, l ∈ lines ∧ contains ⟪"*/"⟫ l = true) →
  ∃ q, 15 + length name ≤ q ∧ q + 6 ≤ length (header name (license_text lines)) ∧
    has_at (header name (license_text lines)) q ⟪"*/"⟫ = true.
Proof.
  intros (l & Hl & Hc).
  destruct (contains ⟪"*/"⟫ (strip l)) eqn:E.
  2: { exfalso. apply (no_pair_contains "*" "/"), no_pair_strip, no_pair_contains in E.
       unfold_lits. congruence. }
  apply contains_spec in E as [i Hi].
  assert (i + 2 ≤ length (strip l)) as Hil.
  { destruct (decide (i + 2 ≤ length (strip l))); [done|].
    rewrite has_at_short in Hi; [done|done|cbn; lia]. }
  apply list_elem_of_split in Hl as (l1 & l2 & ->).
  set (pre := hdr_open ++ name ++ hdr_sep ++ concat (map license_line l1) ++ ⟪" * "⟫).
  set (post := [newline] ++ concat (map license_line l2) ++ hdr_close).
  assert (header name (license_text (l1 ++ l :: l2)) = pre ++ strip l ++ post) as ->.
  { rewrite license_text_concat, map_app, concat_app. cbn [map concat].
    unfold header, pre, post, license_line. by rewrite <-!app_assoc. }
  exists (length pre + i). rewrite has_at_app_r, has_at_app_l by (cbn; lia).
  split; [|split; [|done]]; unfold pre, post, hdr_open, hdr_sep, hdr_close;
    rewrite !length_app; cbn; lia.
Qed.

(** A word byte of the name bounds where the header's leading opener can
    be: before it. *)
Lemma header_opener_bound (name lt rest : text) k j c :
  c ∈ name → is_word c = true → leading_block (header name lt ++ rest) k j → k < 7 + length name.
Proof.
  intros Hc Hw (Hpre & _). apply list_elem_of_lookup_1 in Hc as [w Hwl].
  pose proof (lookup_lt_Some _ _ _ Hwl).
  destruct (decide (k < 7 + length name)) as [|Hge]; [done|exfalso].
  destruct (Hpre (7 + w)) as (x & Hx & Hnw); [lia|].
  unfold header in Hx. rewrite <-!app_assoc in Hx.
  change 7 with (length hdr_open) in Hx. rewrite lookup_app_add, lookup_app_l in Hx by lia.
  congruence.
Qed.

(** With a license line holding ["*/"], a file that had a leading block
    grows when rewritten again: the second match ends at the license's
    ["*/"], inside the first header, and the header is inserted again in
    front of the tail of the old one. *)
Lemma rewrite_text_closer_grows (lines : list text) (fn s r : text) :
  backslash ∉ basename fn → (∃ c, c ∈ basename fn ∧ is_word c = true) →
  (∀ l, l ∈ lines → backslash ∉ l) → (∃ l, l ∈ lines ∧ contains ⟪"*/"⟫ l = true) →
  (∃ k j, leading_block s k j) → rewrite_text (license_text lines) fn s = Ok r →
  ∃ r', rewrite_text (license_text lines) fn r = Ok r' ∧ length r < length r'.
Proof.
  intros Hb (c & Hc & Hw) Hl Hcl (k & j & Hblk) Hr.
  assert (backslash ∉ header (basename fn) (license_text lines)) as Hh
    by (apply header_no_backslash; naive_solver).
  rewrite (rewrite_text_block_eq _ _ _ k j Hh Hblk) in Hr.
  set (h := header (basename fn) (license_text lines)) in *.
  assert (r = h ++ drop (j + 2) s) as -> by (injection Hr as <-; reflexivity).
  destruct (header_closer (basename fn) lines Hcl) as (q & Hq1 & Hq2 & Hq).
  fold h in Hq1, Hq2, Hq.
  assert (has_at (h ++ drop (j + 2) s) q ⟪"*/"⟫ = true) as Hq'
    by (rewrite has_at_app_l; [done|change (length ⟪"*/"⟫) with 2; lia]).
  destruct (sre_search_license_spec (h ++ drop (j + 2) s)) as [k' j' Hblk'|Hn].
  - pose proof (header_opener_bound _ _ _ _ _ _ Hc Hw Hblk') as Hk'.
    assert (j' ≤ q) as Hj'.
    { destruct Hblk' as (_ & _ & _ & _ & Hfirst & _).
      destruct (decide (j' ≤ q)) as [|Hgt]; [done|].
      rewrite Hfirst in Hq'; [done|lia]. }
    exists (h ++ drop (j' + 2) (h ++ drop (j + 2) s)).
    split; [by apply (rewrite_text_block_eq _ _ _ k' j')|].
    rewrite !length_app, !length_drop, !length_app, ?length_drop. lia.
  - exfalso. apply (Hn 0). split; [intros i Hi; lia|]. split.
    + unfold h. rewrite header_split, <-!app_assoc. apply has_at_prefix.
    + exists q. split; [lia|done].
Qed.

(** ** A group reference in the license *)

(** The header around the one license line holding [\d]. *)
Lemma header_group_split (name : text) (lines1 lines2 : list text) (l u v : text) d :
  strip l = u ++ [backslash; d] ++ v →
  header name (license_text (lines1 ++ l :: lines2)) =
  (hdr_open ++ name ++ hdr_sep ++ license_text lines1 ++ ⟪" * "⟫ ++ u) ++ [backslash; d] ++
  (v ++ [newline] ++ license_text lines2 ++ hdr_close).
Proof.
  intros Hs. rewrite !license_text_concat, map_app, concat_app. cbn [map concat].
  unfold header, license_line. rewrite Hs. by rewrite <-!app_assoc.
Qed.

(** With exactly one [\d] (for a digit [d] from 2 to 9, not followed by
    a digit) among the bytes of the header, the header is a template with a
    reference to a group the pattern lacks. *)
Lemma compile_repl_group (name : text) (lines1 lines2 : list text) (l u v : text) d :
  backslash ∉ name → (∀ x, x ∈ lines1 ++ lines2 → backslash ∉ x) →
  strip l = u ++ [backslash; d] ++ v → backslash ∉ u → backslash ∉ v →
  is_digit d = true → d ≠ "0"%char → (∀ c, head v = Some c → is_digit c = false) →
  compile_repl (header name (license_text (lines1 ++ l :: lines2))) =
  Ok (ReplTemplate [TLit (hdr_open ++ name ++ hdr_sep ++ license_text lines1 ++ ⟪" * "⟫ ++ u);
                    TGroup (digit_val d);
                    TLit (v ++ [newline] ++ license_text lines2 ++ hdr_close)]).
Proof.
  intros Hn Hx Hs Hu Hv Hd Hd0 Hhd. rewrite (header_group_split _ _ _ _ _ _ _ Hs).
  pose proof (license_text_no_backslash lines1 ltac:(set_solver)).
  pose proof (license_text_no_backslash lines2 ltac:(set_solver)).
  unfold compile_repl. rewrite bool_decide_eq_true_2 by set_solver.
  rewrite parse_template_group; [done|unfold hdr_open; done| | | |done|done|].
  - intros E. apply (f_equal length) in E. rewrite !length_app in E. cbn in E. lia.
  - unfold hdr_open, hdr_sep. repeat (apply not_elem_of_app; split); try not_in_lit; done.
  - unfold hdr_close. repeat (apply not_elem_of_app; split); try not_in_lit; done.
  - destruct v as [|c v]; [|exact Hhd]. by intros c [= <-].
Qed.

(** With no backslash in the name or the license lines, line 32 never
    raises. *)
Lemma rewrite_text_ok (lines : list text) (fn s : text) :
  backslash ∉ basename fn → (∀ l, l ∈ lines → backslash ∉ l) →
  ∃ r, rewrite_text (license_text lines) fn s = Ok r.
Proof.
  intros Hb Hl. rewrite rewrite_text_unfold, re_sub_literal by (by apply header_no_backslash).
  destruct (sre_search _ _) as [[[st e] m]|]; eauto.
Qed.

(** A block needs ["/**"], one byte and ["*/"]: six bytes at least. *)
Lemma opener_ok_length (s : text) k : opener_ok s k → 6 ≤ length s.
Proof.
  intros (_ & _ & j & Hj & Hc). destruct (decide (length s < j + 2)); [|lia].
  by rewrite has_at_short in Hc.
Qed.

(** ["/**x*/"], the shortest text the pattern matches. *)
Lemma shortest_block : leading_block ⟪"/**x*/"⟫ 0 4.
Proof.
  apply (leading_block_intro [] ⟪"x"⟫ [] 0 "x"%char); [constructor|done|done|set_solver|].
  apply no_pair_not_in. by_eval.
Qed.

(** C1: a file whose text has a leading block (the last admissible
    ["/**"] of the leading non-word run up to the first ["*/"] at least one
    byte later) becomes the header followed by the text after that ["*/"],
    provided the header holds no backslash. *)
Theorem rewrite_text_block (lt fn s : text) k j :
  backslash ∉ header (basename fn) lt →
  leading_block s k j →
  rewrite_text lt fn s = Ok (header (basename fn) lt ++ drop (j + 2) s).
Proof. apply rewrite_text_block_eq. Qed.

(** C2: a file without an admissible opener is left byte for byte as it
    is, provided the header holds no backslash. *)
Theorem rewrite_text_no_block (lt fn s : text) :
  backslash ∉ header (basename fn) lt →
  (∀ k, ¬ opener_ok s k) →
  rewrite_text lt fn s = Ok s.
Proof. apply rewrite_text_no_block_eq. Qed.

(** C8: running the rewrite twice gives what running it once gives, when
    the base name has a word byte and no backslash, and no license line
    holds a backslash or ["*/"]. *)
Theorem rewrite_text_idempotent (lines : list text) (fn s r : text) :
  backslash ∉ basename fn → (∃ c, c ∈ basename fn ∧ is_word c = true) →
  (∀ l, l ∈ lines → backslash ∉ l ∧ contains ⟪"*/"⟫ l = false) →
  rewrite_text (license_text lines) fn s = Ok r →
  rewrite_text (license_text lines) fn r = Ok r.
Proof. apply rewrite_text_fixed. Qed.

(** C27: the boundary of the pattern's length: a file of fewer than six
    bytes is never changed, and the six bytes ["/**x*/"] are replaced by
    the header, provided the header holds no backslash. *)
Theorem rewrite_text_short (lt fn : text) :
  backslash ∉ header (basename fn) lt →
  (∀ s, length s < 6 → rewrite_text lt fn s = Ok s) ∧
  rewrite_text lt fn ⟪"/**x*/"⟫ = Ok (header (basename fn) lt).
Proof.
  intros Hb. split.
  - intros s Hs. apply rewrite_text_no_block_eq; [done|].
    intros k Hk. apply opener_ok_length in Hk. lia.
  - rewrite (rewrite_text_block_eq _ _ _ _ _ Hb shortest_block). by rewrite app_nil_r.
Qed.

(** C13: the rewrite is not idempotent when a license line holds ["*/"]:
    for every file that has a leading block (and a found name with a word
    byte and, like the license, no backslash), rewriting the rewritten text
    again changes it and makes it strictly longer, so every run of the
    script adds another copy of the header's tail. *)
Theorem rewrite_text_closer_not_idempotent (lines : list text) (fn s r : text) :
  backslash ∉ basename fn → (∃ c, c ∈ basename fn ∧ is_word c = true) →
  (∀ l, l ∈ lines → backslash ∉ l) → (∃ l, l ∈ lines ∧ contains ⟪"*/"⟫ l = true) →
  (∃ k j, leading_block s k j) → rewrite_text (license_text lines) fn s = Ok r →
  ∃ r', rewrite_text (license_text lines) fn r = Ok r' ∧ r' ≠ r ∧ length r < length r'.
Proof.
  intros Hb Hc Hl Hcl Hblk Hr.
  destruct (rewrite_text_closer_grows lines fn s r Hb Hc Hl Hcl Hblk Hr) as (r' & Hr' & Hlt).
  exists r'. split; [done|]. split; [intros ->; lia|done].
Qed.

(** C14: a license line whose stripped text holds one group reference
    [\d], [d] from 2 to 9 and not followed by a digit (the only backslash
    of the license and of the name), makes line 32 raise [invalid group
    reference] on every file that has a leading block, and leaves every
    file without one unchanged: the template is parsed before the search,
    but the group is looked up only when a match is expanded. *)
Theorem rewrite_text_group_reference (lines1 lines2 : list text) (l u v fn s : text) d :
  backslash ∉ basename fn → (∀ x, x ∈ lines1 ++ lines2 → backslash ∉ x) →
  strip l = u ++ [backslash; d] ++ v → backslash ∉ u → backslash ∉ v →
  is_digit d = true → d ≠ "0"%char → d ≠ "1"%char → (∀ c, head v = Some c → is_digit c = false) →
  ((∃ k j, leading_block s k j) →
     rewrite_text (license_text (lines1 ++ l :: lines2)) fn s =
     Err (SreError ⟪"invalid group reference"⟫)) ∧
  ((∀ k, ¬ opener_ok s k) → rewrite_text (license_text (lines1 ++ l :: lines2)) fn s = Ok s).
Proof.
  intros Hb Hx Hs Hu Hv Hd Hd0 Hd1 Hhd.
  rewrite rewrite_text_unfold. unfold re_sub.
  rewrite (compile_repl_group _ _ _ _ _ _ _ Hb Hx Hs Hu Hv Hd Hd0 Hhd). cbn [mbind res_bind].
  pose proof (digit_val_ge_2 d Hd Hd0 Hd1).
  destruct (sre_search_license_spec s) as [k j Hblk|Hn]; split.
  - intros _. unfold expand. by rewrite expand_items_bad_group by lia.
  - intros Hn. exfalso. by apply (Hn k), (leading_block_opener _ _ j).
  - intros (k & j & Hblk). exfalso. by apply (Hn k), (leading_block_opener _ _ j).
  - done.
Qed.

End Substitute.
