(* ===== verification/Run.v ===== *)
(** The script as a whole, src/code_license_replacer.py lines 6-37.

    [run] computes [allFileNames] (lines 6-12, [Glob.all_file_names]),
    reads the license (lines 15-17: [open] raises [IOError] when the file
    cannot be opened, so [licenseTextLines] is never [None] afterwards),
    takes the check of lines 19-21, builds [licenseText] (lines 24-26) and
    runs the loop of lines 29-37.  [rewrite_file] is the body of the loop
    for one file: [open(fileName, 'r+')], [read], the substitution, [seek(0)],
    [write], [truncate], [close]; an exception inside the [with] block
    closes the file without writing.  [process_files] runs it over the list
    and stops at the first exception, which ends the script.

    The driver lemmas are proved in a section for any transformation of a
    file's text; the theorems on [run] instantiate it with line 32. *)

From Stdlib Require Import ZArith.
From S2P Require Import Prelude PyStr FS Glob License Sre Template Substitute.

Module Run.

Import PyStr FS Glob License Sre Substitute.

(** How the process ends: the loop completed, an exception escaped, or
    [exit(code)]. *)
Inductive outcome :=
  | Finished
  | Raised (e : py_exc)
  | Exited (code : Z).

Record result := Result { r_outcome : outcome; r_fs : fs; r_stdout : list text }.

Definition license_path : text := ⟪"./code_license.txt"⟫.

Definition missing_msg : text :=
  ⟪"Failed to find and open code_license.txt in script directory."⟫.

(** Lines 15-17: the value of [licenseTextLines] after the [with]. *)
Definition load_license (f : fs) : res (option (list text)) :=
  data ← open_read f license_path;
  Ok (Some (readlines data)).

(** Lines 30-37 for one file; [xform fileName fileText] is line 32. *)
Definition rewrite_file (xform : text → text → res text) (f : fs) (fileName : text) :
    res fs :=
  o ← open_rw f fileName;
  let '(fileText, o) := fo_read o in
  modifiedFileText ← xform fileName fileText;
  let o := fo_seek o 0 in
  let o := fo_write o modifiedFileText in
  let o := fo_truncate o in
  Ok (fo_close f o).

(** Lines 29-37: the loop, stopping at the first exception. *)
Fixpoint process_files (xform : text → text → res text) (names : list text) (f : fs) :
    fs * option py_exc :=
  match names with
  | [] => (f, None)
  | n :: ns =>
      match rewrite_file xform f n with
      | Ok f' => process_files xform ns f'
      | Err e => (f, Some e)
      end
  end.

(** The script. *)
Definition run (f : fs) : result :=
  let allFileNames := all_file_names f in
  match load_license f with
  | Err e => Result (Raised e) f []
  | Ok None => Result (Exited (-1)) f [missing_msg]
  | Ok (Some licenseTextLines) =>
      let licenseText := license_text licenseTextLines in
      match process_files (rewrite_text licenseText) allFileNames f with
      | (f', None) => Result Finished f' []
      | (f', Some e) => Result (Raised e) f' []
      end
  end.

(** What a run needs to complete: the license can be read, and every
    found path is a regular file that may be read and written and whose
    text line 32 rewrites without raising. *)
Definition can_finish (f : fs) (data : text) : Prop :=
  ∀ p, p ∈ all_file_names f → ∃ old pm m,
    f !! p = Some (RegFile old pm) ∧ p_read pm = true ∧ p_write pm = true ∧
    rewrite_text (license_text (readlines data)) p old = Ok m.

(** ** The driver, for any transformation *)

Section Driver.

Context (xform : text → text → res text).

Lemma rewrite_file_ok (f f' : fs) (n : text) :
  rewrite_file xform f n = Ok f' ↔
  ∃ data pm m, f !! resolve n = Some (RegFile data pm) ∧
    p_read pm = true ∧ p_write pm = true ∧ xform n data = Ok m ∧
    f' = <[resolve n := RegFile m pm]> f.
Proof.
  unfold rewrite_file. rewrite bind_Ok_inv. split.
  - intros (o & Ho & Hx). cbn [fo_read] in Hx. apply bind_Ok_inv in Hx as (m & Hx & [= <-]).
    apply open_rw_ok in Ho as (Hp & H0 & Hf & Hr & Hw). rewrite H0 in Hx.
    exists (fo_data o), (fo_perm o), m. repeat split; try done.
    rewrite rewrite_close. cbn. by rewrite Hp.
  - intros (data & pm & m & Hf & Hr & Hw & Hx & ->). unfold open_rw. rewrite Hf, Hr, Hw.
    eexists; split; [done|]. cbn [fo_read fo_data fo_pos drop]. rewrite drop_0, Hx.
    cbn [mbind res_bind]. by rewrite rewrite_close.
Qed.

Lemma rewrite_file_frame (f f' : fs) (n k : text) :
  rewrite_file xform f n = Ok f' → k ≠ resolve n → f' !! k = f !! k.
Proof.
  intros (data & pm & m & _ & _ & _ & _ & ->)%rewrite_file_ok ?.
  by rewrite lookup_insert_ne.
Qed.

Lemma rewrite_file_data_only (f f' : fs) (n : text) :
  rewrite_file xform f n = Ok f' → data_only f f'.
Proof.
  intros (data & pm & m & Hf & _ & _ & _ & ->)%rewrite_file_ok.
  by eapply data_only_insert_file.
Qed.

Lemma process_files_data_only (names : list text) (f f' : fs) r :
  process_files xform names f = (f', r) → data_only f f'.
Proof.
  revert f. induction names as [|n ns IH]; intros f; cbn [process_files].
  - by intros [= <- _].
  - destruct (rewrite_file xform f n) as [f1|e] eqn:E; [|by intros [= <- _]].
    intros Hp. etransitivity; [by eapply rewrite_file_data_only|by eapply IH].
Qed.

Lemma process_files_shape (names : list text) (f f' : fs) r :
  process_files xform names f = (f', r) → same_shape f f'.
Proof. intros Hp. by eapply data_only_same_shape, process_files_data_only. Qed.

(** Only the files of the list can change. *)
Lemma process_files_frame (names : list text) (f f' : fs) r k :
  process_files xform names f = (f', r) → k ∉ map resolve names → f' !! k = f !! k.
Proof.
  revert f. induction names as [|n ns IH]; intros f; cbn [process_files map].
  - by intros [= <- _].
  - rewrite not_elem_of_cons. intros Hp [Hk Hks].
    destruct (rewrite_file xform f n) as [f1|e] eqn:E; [|by injection Hp as <-].
    rewrite (IH f1) by done. by eapply rewrite_file_frame.
Qed.

Lemma process_files_app (pre post : list text) (f : fs) :
  process_files xform (pre ++ post) f =
  match process_files xform pre f with
  | (f', None) => process_files xform post f'
  | r => r
  end.
Proof.
  revert f. induction pre as [|n pre IH]; intros f; cbn [process_files app]; [done|].
  by destruct (rewrite_file xform f n).
Qed.

(** An exception stops the loop at one file: the files before it are
    processed, that file and the ones after are not. *)
Lemma process_files_abort (names : list text) (f f' : fs) e :
  process_files xform names f = (f', Some e) →
  ∃ pre n post, names = pre ++ n :: post ∧
    process_files xform pre f = (f', None) ∧ rewrite_file xform f' n = Err e.
Proof.
  revert f. induction names as [|n ns IH]; intros f; cbn [process_files]; [done|].
  destruct (rewrite_file xform f n) as [f1|e'] eqn:E.
  - intros (pre & n' & post & -> & Hpre & Hn)%IH.
    exists (n :: pre), n', post. cbn [process_files app]. by rewrite E.
  - intros [= -> ->]. by exists [], n, ns.
Qed.

(** Each file of a completed loop holds the transformation of what it held
    before, with its permissions. *)
Lemma process_files_ok (names : list text) (f f' : fs) :
  NoDup (map resolve names) →
  process_files xform names f = (f', None) →
  ∀ n, n ∈ names → ∃ data pm m,
    f !! resolve n = Some (RegFile data pm) ∧ p_read pm = true ∧ p_write pm = true ∧
    xform n data = Ok m ∧ f' !! resolve n = Some (RegFile m pm).
Proof.
  revert f. induction names as [|n ns IH]; intros f Hnd; cbn [process_files]; [set_solver|].
  cbn [map] in Hnd. apply NoDup_cons in Hnd as [Hn Hnd].
  destruct (rewrite_file xform f n) as [f1|e] eqn:E; [|done]. intros Hp n'.
  pose proof E as (data & pm & m & Hf & Hr & Hw & Hx & ->)%rewrite_file_ok.
  rewrite elem_of_cons. intros [->|Hn'].
  - exists data, pm, m. repeat split; try done.
    rewrite (process_files_frame _ _ _ _ _ Hp Hn). by rewrite lookup_insert_eq.
  - destruct (IH _ Hnd Hp n' Hn') as (data' & pm' & m' & Hf' & ?).
    assert (resolve n ≠ resolve n') as Hne.
    { intros Heq. apply Hn. rewrite Heq. by apply list_elem_of_fmap_2. }
    rewrite lookup_insert_ne in Hf' by done. by exists data', pm', m'.
Qed.

(** The loop completes when every file can be opened ['r+'] and
    transformed. *)
Lemma process_files_complete (names : list text) (f : fs) :
  NoDup (map resolve names) →
  (∀ n, n ∈ names → ∃ data pm m,
    f !! resolve n = Some (RegFile data pm) ∧ p_read pm = true ∧ p_write pm = true ∧
    xform n data = Ok m) →
  (process_files xform names f).2 = None.
Proof.
  revert f. induction names as [|n ns IH]; intros f Hnd Hall; cbn [process_files]; [done|].
  cbn [map] in Hnd. apply NoDup_cons in Hnd as [Hn Hnd].
  destruct (Hall n) as (data & pm & m & Hf & Hr & Hw & Hx); [set_solver|].
  assert (rewrite_file xform f n = Ok (<[resolve n := RegFile m pm]> f)) as ->.
  { apply rewrite_file_ok. by exists data, pm, m. }
  apply IH; [done|]. intros n' Hn'.
  destruct (Hall n') as (data' & pm' & m' & Hf' & ?); [set_solver|].
  exists data', pm', m'. rewrite lookup_insert_ne; [done|].
  intros Heq. apply Hn. rewrite Heq. by apply list_elem_of_fmap_2.
Qed.

(** A file system the transformation leaves as it is stays as it is. *)
Lemma process_files_fixed (names : list text) (f : fs) :
  (∀ n, n ∈ names → ∃ data pm,
    f !! resolve n = Some (RegFile data pm) ∧ p_read pm = true ∧ p_write pm = true ∧
    xform n data = Ok data) →
  process_files xform names f = (f, None).
Proof.
  induction names as [|n ns IH]; intros Hall; cbn [process_files]; [done|].
  destruct (Hall n) as (data & pm & Hf & Hr & Hw & Hx); [set_solver|].
  assert (rewrite_file xform f n = Ok f) as ->.
  { apply rewrite_file_ok. exists data, pm, data. by rewrite insert_id. }
  apply IH. set_solver.
Qed.

Section Stable.

Context (good : text → Prop).

(** The transformation's output is a fixed point for the names it is
    good for. *)
Hypothesis xform_fix : ∀ n t t', good n → xform n t = Ok t' → xform n t' = Ok t'.

Lemma process_files_idem (names : list text) (f f' : fs) :
  NoDup (map resolve names) → (∀ n, n ∈ names → good n) →
  process_files xform names f = (f', None) → process_files xform names f' = (f', None).
Proof.
  intros Hnd Hg Hp. apply process_files_fixed. intros n Hn.
  destruct (process_files_ok _ _ _ Hnd Hp n Hn) as (data & pm & m & _ & Hr & Hw & Hx & Hf').
  exists m, pm. repeat split; try done. eapply xform_fix; [by apply Hg|exact Hx].
Qed.

End Stable.

End Driver.

(** ** The script *)

Lemma license_key : resolve license_path = ⟪"code_license.txt"⟫.
Proof. reflexivity. Qed.

(** The script writes nothing on stdout and never reaches [exit]. *)
Lemma run_silent (f : fs) :
  r_stdout (run f) = [] ∧ ∀ c, r_outcome (run f) ≠ Exited c.
Proof.
  unfold run, load_license. destruct (open_read f license_path); [|done].
  cbn [mbind res_bind]. by destruct (process_files _ _ _) as [? []].
Qed.

(** Without [./code_license.txt], [open] raises [ENOENT]. *)
Lemma open_license_missing (f : fs) :
  f !! ⟪"code_license.txt"⟫ = None →
  open_read f license_path = Err (IOError ENOENT license_path).
Proof. intros H. unfold open_read. by rewrite license_key, H. Qed.

(** The license file is not one of the files the script rewrites. *)
Lemma license_not_candidate (f : fs) (p : text) :
  fs_wf f → p ∈ all_file_names f → resolve p ≠ resolve license_path.
Proof.
  intros Hwf Hp. destruct (candidate_facts f p Hwf Hp) as (-> & _ & e & He & Hs).
  intros ->. unfold script_exts in He. rewrite !elem_of_cons, elem_of_nil in He.
  apply (bool_decide_pack (e `suffix_of` _)) in Hs.
  destruct He as [->|[->|[]]]; vm_compute in Hs; exact Hs.
Qed.

Lemma candidates_map_resolve (f : fs) :
  fs_wf f → map resolve (all_file_names f) = all_file_names f.
Proof.
  intros Hwf. rewrite <-(map_id (all_file_names f)) at 2. apply map_ext_in.
  intros p Hp%list_elem_of_In. by apply (candidate_facts f p).
Qed.

Lemma candidates_NoDup_resolve (f : fs) : fs_wf f → NoDup (map resolve (all_file_names f)).
Proof. intros Hwf. rewrite candidates_map_resolve by done. by apply all_file_names_distinct. Qed.

Lemma candidate_word (f : fs) (p : text) :
  fs_wf f → p ∈ all_file_names f → ∃ c, c ∈ basename p ∧ is_word c = true.
Proof.
  intros Hwf Hp. destruct (candidate_facts f p Hwf Hp) as (_ & _ & e & He & [pre ->]).
  destruct (script_ext_word e He) as (c & Hc & Hw). exists c. split; [set_solver|done].
Qed.

Lemma run_license_ok (f : fs) data :
  open_read f license_path = Ok data →
  run f = let lt := license_text (readlines data) in
          match process_files (rewrite_text lt) (all_file_names f) f with
          | (f', None) => Result Finished f' []
          | (f', Some e) => Result (Raised e) f' []
          end.
Proof. intros Hd. unfold run, load_license. by rewrite Hd. Qed.

(** when [./code_license.txt] cannot be opened the script raises the
    [IOError] of [open] and no file is touched; it does not print the
    diagnostic of line 20 nor exit with status [-1]. *)
Lemma run_license_error (f : fs) e :
  open_read f license_path = Err e → run f = Result (Raised e) f [].
Proof. intros He. unfold run, load_license. by rewrite He. Qed.

(** C9: the branch of lines 19-21 is dead: the script never prints and
    never calls [exit]. *)
Theorem run_never_prints (f : fs) :
  r_stdout (run f) = [] ∧ ∀ c, r_outcome (run f) ≠ Exited c.
Proof. apply run_silent. Qed.

Lemma run_finished_of (f : fs) data :
  fs_wf f → open_read f license_path = Ok data → can_finish f data →
  r_outcome (run f) = Finished.
Proof.
  intros Hwf Hd Hall. rewrite run_license_ok with (data := data) by done. cbn zeta.
  pose proof (process_files_complete (rewrite_text (license_text (readlines data)))
    (all_file_names f) f (candidates_NoDup_resolve f Hwf)) as Hc.
  destruct (process_files _ _ _) as [f1 [e|]]; [|done]. exfalso.
  enough (Some e = None) by done. apply Hc. intros p Hp.
  rewrite (proj1 (candidate_facts f p Hwf Hp)). naive_solver.
Qed.

Lemma run_finished_inv (f : fs) :
  fs_wf f → r_outcome (run f) = Finished →
  ∃ data, open_read f license_path = Ok data ∧ can_finish f data.
Proof.
  intros Hwf. destruct (open_read f license_path) as [data|e] eqn:Hd;
    [|by rewrite (run_license_error f e Hd)].
  rewrite run_license_ok with (data := data) by done. cbn zeta.
  destruct (process_files _ _ _) as [f1 [e|]] eqn:Hp; [done|]. intros _.
  exists data. split; [done|]. intros p Hin. destruct (candidate_facts f p Hwf Hin) as (Hr & _).
  destruct (process_files_ok _ _ _ _ (candidates_NoDup_resolve f Hwf) Hp p Hin)
    as (old & pm & m & Hf & ? & ? & Hx & _). rewrite Hr in Hf. by exists old, pm, m.
Qed.

(** A run completes exactly when it can. *)
Lemma run_finished_iff (f : fs) :
  fs_wf f →
  r_outcome (run f) = Finished ↔ ∃ data, open_read f license_path = Ok data ∧ can_finish f data.
Proof.
  intros Hwf. split; [by apply run_finished_inv|].
  intros (data & Hd & Hc). by apply (run_finished_of f data).
Qed.

(** A completed run, file by file. *)
Lemma run_finished_files (f f' : fs) out :
  fs_wf f → run f = Result Finished f' out →
  ∃ data, open_read f license_path = Ok data ∧
    (∀ p, p ∈ all_file_names f → ∃ old pm m,
       f !! p = Some (RegFile old pm) ∧
       rewrite_text (license_text (readlines data)) p old = Ok m ∧
       f' !! p = Some (RegFile m pm)) ∧
    (∀ k, k ∉ all_file_names f → f' !! k = f !! k).
Proof.
  intros Hwf. destruct (open_read f license_path) as [data|e] eqn:Hd;
    [|by rewrite (run_license_error f e Hd)].
  rewrite run_license_ok with (data := data) by done. cbn zeta.
  destruct (process_files _ _ _) as [f1 [e|]] eqn:Hp; [done|]. intros [= <-].
  exists data. split; [done|]. split.
  - intros p Hin. destruct (candidate_facts f p Hwf Hin) as (Hr & _).
    destruct (process_files_ok _ _ _ _ (candidates_NoDup_resolve f Hwf) Hp p Hin)
      as (old & pm & m & Hf & _ & _ & Hx & Hf'). rewrite Hr in Hf, Hf'. by exists old, pm, m.
  - intros k Hk. apply (process_files_frame _ _ _ _ _ _ Hp).
    by rewrite candidates_map_resolve.
Qed.

(** C5: an aborted run stops at one file: the license was read, the files
    listed before it are rewritten ([process_files] completed on them),
    the exception is the one of [open] or of the substitution for that
    file, and it and all later files are untouched. *)
Theorem run_aborted (f f' : fs) e out :
  fs_wf f → run f = Result (Raised e) f' out →
  (open_read f license_path = Err e ∧ f' = f) ∨
  ∃ data pre p post, open_read f license_path = Ok data ∧
    all_file_names f = pre ++ p :: post ∧
    process_files (rewrite_text (license_text (readlines data))) pre f = (f', None) ∧
    rewrite_file (rewrite_text (license_text (readlines data))) f' p = Err e ∧
    ∀ q, q ∈ p :: post → f' !! q = f !! q.
Proof.
  intros Hwf. destruct (open_read f license_path) as [data|e'] eqn:Hd;
    [|rewrite (run_license_error f e' Hd); intros [= -> ->]; by left].
  rewrite run_license_ok with (data := data) by done. cbn zeta.
  destruct (process_files _ _ _) as [f1 [e'|]] eqn:Hp; [|done]. intros [= -> <-]. right.
  pose proof (candidates_NoDup_resolve f Hwf) as Hnd.
  apply process_files_abort in Hp as Hab. destruct Hab as (pre & p & post & Heq & Hpre & Hp').
  exists data, pre, p, post. repeat split; try done.
  intros q Hq. rewrite <-(proj1 (candidate_facts f q Hwf ltac:(rewrite Heq; set_solver))).
  apply (process_files_frame _ _ _ _ _ _ Hpre).
  rewrite Heq, map_app in Hnd. apply NoDup_app in Hnd as (_ & Hdis & _).
  intros Hin. apply (Hdis _ Hin). by apply list_elem_of_fmap_2.
Qed.

(** C15: the script completes when the license file is readable, every
    file it finds is a regular file it may read and write, and neither the
    license lines nor the found base names hold a backslash. *)
Theorem run_finishes (f : fs) data :
  fs_wf f → open_read f license_path = Ok data →
  (∀ l, l ∈ readlines data → backslash ∉ l) →
  (∀ p, p ∈ all_file_names f → backslash ∉ basename p ∧
     ∃ old pm, f !! p = Some (RegFile old pm) ∧ p_read pm = true ∧ p_write pm = true) →
  r_outcome (run f) = Finished.
Proof.
  intros Hwf Hd Hl Hall. apply (run_finished_of f data Hwf Hd). intros p Hp.
  destruct (Hall p Hp) as (Hb & old & pm & Hf & Hr & Hw).
  destruct (rewrite_text_ok (readlines data) p old Hb Hl) as [m Hm]. by exists old, pm, m.
Qed.

(** C7: running the script a second time changes nothing, when no
    license line holds a backslash or ["*/"] and no found base name holds
    a backslash. *)
Theorem run_idempotent (f f' : fs) data :
  fs_wf f → open_read f license_path = Ok data →
  (∀ l, l ∈ readlines data → backslash ∉ l ∧ contains ⟪"*/"⟫ l = false) →
  (∀ p, p ∈ all_file_names f → backslash ∉ basename p) →
  run f = Result Finished f' [] → run f' = Result Finished f' [].
Proof.
  intros Hwf Hd Hl Hb. rewrite run_license_ok with (data := data) by done. cbn zeta.
  destruct (process_files _ _ _) as [f1 [e|]] eqn:Hp; [done|]. intros [= <-].
  pose proof (process_files_shape _ _ _ _ _ Hp) as Hsh.
  assert (open_read f1 license_path = Ok data) as Hd1.
  { unfold open_read. rewrite (process_files_frame _ _ _ _ _ _ Hp); [done|].
    rewrite candidates_map_resolve by done. intros Hin.
    by apply (license_not_candidate f (resolve license_path)). }
  rewrite run_license_ok with (data := data) by done. cbn zeta.
  rewrite <-(all_file_names_proper f f1 Hsh).
  set (good p := backslash ∉ basename p ∧ ∃ c, c ∈ basename p ∧ is_word c = true).
  assert (∀ n t t', good n → rewrite_text (license_text (readlines data)) n t = Ok t' →
    rewrite_text (license_text (readlines data)) n t' = Ok t') as Hfix.
  { intros n t t' [Hn Hw]. by apply rewrite_text_fixed. }
  rewrite (process_files_idem _ good Hfix (all_file_names f) f f1
    (candidates_NoDup_resolve f Hwf)); [done| |done].
  intros p Hp'. split; [by apply Hb|by apply (candidate_word f)].
Qed.

(** C6: when [./code_license.txt] cannot be opened the script raises the
    [IOError] of [open] and no file is touched; it does not print the
    diagnostic of line 20 nor exit with status [-1]. *)
Theorem run_license_missing (f : fs) e :
  open_read f license_path = Err e → run f = Result (Raised e) f [].
Proof. apply run_license_error. Qed.

(** C16: whatever its ending, the script changes only the contents of
    regular files: it creates and deletes no path, changes no directory
    listing and no permission, so a well-formed tree stays well-formed. *)
Theorem run_data_only (f : fs) :
  data_only f (r_fs (run f)) ∧ (fs_wf f → fs_wf (r_fs (run f))).
Proof.
  assert (data_only f (r_fs (run f))) as H.
  { unfold run, load_license. destruct (open_read f license_path); [|done].
    cbn [mbind res_bind]. destruct (process_files _ _ _) as [f' r] eqn:Hp.
    apply process_files_data_only in Hp. by destruct r. }
  split; [done|]. intros Hwf. by rewrite <-(data_only_same_shape _ _ H).
Qed.

(** C4: a run that completes has replaced every file it found by the
    substitution of line 32 applied to that file's former text, keeping its
    permissions, and left every other path as it was. *)
Theorem run_finished_spec (f f' : fs) out :
  fs_wf f → run f = Result Finished f' out →
  ∃ data, open_read f license_path = Ok data ∧
    (∀ p, p ∈ all_file_names f → ∃ old pm m,
       f !! p = Some (RegFile old pm) ∧
       rewrite_text (license_text (readlines data)) p old = Ok m ∧
       f' !! p = Some (RegFile m pm)) ∧
    (∀ k, k ∉ all_file_names f → f' !! k = f !! k).
Proof. apply run_finished_files. Qed.

(** C10: the contract of the specification's section 8, for a completed
    run whose license lines and found base names hold no backslash: every
    found file with a leading block now holds the header (its base name,
    a blank line, one stripped line per license line, [" */"]) followed by
    the text after the block's ["*/"], and every found file without one is
    byte for byte unchanged. *)
Theorem run_contract (f f' : fs) data :
  fs_wf f → open_read f license_path = Ok data →
  (∀ l, l ∈ readlines data → backslash ∉ l) →
  (∀ p, p ∈ all_file_names f → backslash ∉ basename p) →
  run f = Result Finished f' [] →
  ∀ p, p ∈ all_file_names f → ∃ old pm, f !! p = Some (RegFile old pm) ∧
    ((∃ k j, leading_block old k j ∧
        f' !! p = Some (RegFile (header (basename p) (license_text (readlines data)) ++
                                 drop (j + 2) old) pm)) ∨
     ((∀ k, ¬ opener_ok old k) ∧ f' !! p = Some (RegFile old pm))).
Proof.
  intros Hwf Hd Hl Hb Hr p Hp.
  destruct (run_finished_files f f' [] Hwf Hr) as (data' & Hd' & Hall & _).
  rewrite Hd in Hd'. injection Hd' as <-.
  destruct (Hall p Hp) as (old & pm & m & Hf & Hm & Hf'). exists old, pm. split; [done|].
  assert (backslash ∉ header (basename p) (license_text (readlines data))) as Hh
    by (apply header_no_backslash; auto).
  destruct (sre_search_license_spec old) as [k j Hblk|Hn].
  - left. exists k, j. split; [done|].
    rewrite (rewrite_text_block_eq _ _ _ k j Hh Hblk) in Hm. by injection Hm as <-.
  - right. split; [done|]. rewrite (rewrite_text_no_block_eq _ _ _ Hh Hn) in Hm.
    by injection Hm as <-.
Qed.

End Run.
