(* ===== verification/Process.v ===== *)
(** How the script's process ends, as the shell sees it.

    After [run], CPython turns the outcome into an exit status: 0 when the
    script completes, 1 when an exception escapes (after printing the
    traceback on stderr), and the low byte of the code passed to [exit]
    ([exit(-1)] of line 21 would give 255).  The last line of the
    traceback names the exception: [IOError: [Errno 2] No such file or
    directory: './code_license.txt'], built by
    [EnvironmentError.__str__] from the errno, [os.strerror] and the
    [repr] of the file name ([string_repr] of Python 2's
    [stringobject.c]); [sre_constants.error: ...] and [IndexError: ...]
    for the errors of [re.sub].  The rest of the traceback (file and line
    of each frame) is not modelled.  The theorems: the exit status is 0
    exactly when the run can complete ([can_finish]), 1 otherwise; the
    outcome of a missing license file, as the user sees it. *)

From Stdlib Require Import ZArith.
From stdpp Require Import pretty.
From S2P Require Import Prelude FS Run.

Module Process.

Import FS Run.

(** The status [waitpid] reports: [WEXITSTATUS], the low byte of the C
    [exit] argument. *)
Definition exit_status (o : outcome) : Z :=
  match o with
  | Finished => 0
  | Raised _ => 1
  | Exited code => Z.land code 255
  end.

(** [%02x] of a byte: two lowercase hexadecimal digits. *)
Definition hex_digit (n : nat) : ascii :=
  if bool_decide (n < 10) then ascii_of_nat (48 + n) else ascii_of_nat (87 + n).

(** One byte inside [repr]: the quote and the backslash escaped, [\t],
    [\n], [\r] by name, other bytes outside [' '..'~'] as [\xhh]. *)
Definition repr_char (quote c : ascii) : text :=
  if bool_decide (c = quote) || bool_decide (c = backslash) then [backslash; c]
  else if bool_decide (c = "009"%char) then [backslash; "t"%char]
  else if bool_decide (c = newline) then [backslash; "n"%char]
  else if bool_decide (c = "013"%char) then [backslash; "r"%char]
  else if (nat_of_ascii c <? 32) || (127 <=? nat_of_ascii c) then
    [backslash; "x"%char; hex_digit (nat_of_ascii c / 16); hex_digit (nat_of_ascii c mod 16)]
  else [c].

(** [repr(s)] of a Python 2 [str]: single quotes unless [s] holds a single
    quote and no double quote. *)
Definition py_repr (s : text) : text :=
  let quote := if bool_decide ("'"%char ∈ s) && negb (bool_decide ("034"%char ∈ s))
               then "034"%char else "'"%char in
  [quote] ++ concat (map (repr_char quote) s) ++ [quote].

Definition nat_text (n : nat) : text := list_ascii_of_string (pretty (N.of_nat n)).

(** The last line of the traceback for an exception. *)
Definition exc_line (e : py_exc) : text :=
  match e with
  | IOError n p =>
      ⟪"IOError: [Errno "⟫ ++ nat_text n ++ ⟪"] "⟫ ++ strerror n ++ ⟪": "⟫ ++ py_repr p
  | SreError msg => ⟪"sre_constants.error: "⟫ ++ msg
  | IndexErr msg => ⟪"IndexError: "⟫ ++ msg
  end.

(** The last line the process writes on stderr, if any. *)
Definition stderr_last (r : result) : option text :=
  match r_outcome r with
  | Raised e => Some (exc_line e)
  | _ => None
  end.

(** ** Lemmas *)

(** C12: the exit status of the script is 0 or 1, and it is 0 exactly
    when the license file can be read and every found path is a regular
    file the script may read and write and whose text line 32 rewrites
    without raising: no error is swallowed and none is spurious. *)
Theorem run_exit_status (f : fs) :
  fs_wf f →
  (exit_status (r_outcome (run f)) = 0%Z ∨ exit_status (r_outcome (run f)) = 1%Z) ∧
  (exit_status (r_outcome (run f)) = 0%Z ↔
     ∃ data, open_read f license_path = Ok data ∧ can_finish f data).
Proof.
  intros Hwf. rewrite <-run_finished_iff by done. destruct (run_silent f) as [_ Hx].
  destruct (r_outcome (run f)) as [|e|c]; cbn.
  - split; [by left|done].
  - split; [by right|]. split; [lia|done].
  - by destruct (Hx c).
Qed.

(** C11: without [./code_license.txt] the script touches no file, prints
    nothing on stdout, exits with status 1 and ends its traceback with
    [IOError: [Errno 2] No such file or directory: './code_license.txt'];
    the message of line 20 is not what the user sees. *)
Theorem run_license_missing_process (f : fs) :
  f !! ⟪"code_license.txt"⟫ = None →
  r_fs (run f) = f ∧ r_stdout (run f) = [] ∧ exit_status (r_outcome (run f)) = 1%Z ∧
  stderr_last (run f) =
    Some ⟪"IOError: [Errno 2] No such file or directory: './code_license.txt'"⟫.
Proof.
  intros H. rewrite (run_license_error f _ (open_license_missing f H)).
  split; [done|]. split; [done|]. split; [done|]. reflexivity.
Qed.

End Process.
