(* ===== verification/Examples.v ===== *)
(** Concrete runs of the model: the examples of the specification, the
    behaviours of the code that the specification does not describe, and
    the instances at which the general theorems are applied.

    Every statement here is closed and is proved by evaluating the model
    ([vm_compute]) or by applying a general theorem whose hypotheses are
    checked by evaluation. *)

From S2P Require Import Prelude PyStr FS Glob License Sre Regex Template Substitute Run Process.

Module Examples.

Import PyStr FS Glob License Sre Regex Template Substitute Run Process.

Definition nl : text := [newline].

(** The license file of the specification's example. *)
Definition spec_license : text :=
  ⟪"Copyright 2024"⟫ ++ nl ++ ⟪"All rights reserved."⟫ ++ nl.

Definition spec_lt : text := license_text (readlines spec_license).

(** [Foo.h] of the specification's example and the text it expects. *)
Definition foo_h : text := ⟪"/** old header"⟫ ++ nl ++ ⟪"stuff */"⟫ ++ nl ++ ⟪"int x;"⟫.

Definition foo_h_expected : text :=
  ⟪"/**"⟫ ++ nl ++ ⟪" * Foo.h"⟫ ++ nl ++ ⟪" * "⟫ ++ nl ++ ⟪" * Copyright 2024"⟫ ++ nl ++
  ⟪" * All rights reserved."⟫ ++ nl ++ ⟪" */"⟫ ++ nl ++ ⟪"int x;"⟫.

(** The header of [Foo.h]: every line ends in a bare newline. *)
Definition foo_h_expected_lf : text :=
  ⟪"/**"⟫ ++ nl ++ ⟪" * Foo.h"⟫ ++ nl ++ ⟪" * "⟫ ++ nl ++ ⟪" * Copyright 2024"⟫ ++ nl ++
  ⟪" * All rights reserved."⟫ ++ nl ++ ⟪" */"⟫.

(** The specification's file without a leading block. *)
Definition no_block_h : text := ⟪"// not a block comment"⟫ ++ nl ++ ⟪"int x;"⟫.

(** An empty doc comment [/***/] followed by code and a later comment. *)
Definition empty_doc_h : text :=
  ⟪"/***/"⟫ ++ nl ++ ⟪"int x; /* note */"⟫ ++ nl ++ ⟪"int y;"⟫.

(** An empty comment [/**/] followed by a doc comment. *)
Definition two_blocks_h : text := ⟪"/**/ /** doc */ int x;"⟫.

Definition secret_h : text := ⟪"/** secret */ x"⟫.

(** The license of the example, with a line holding ["*/"]. *)
Definition closer_license : list text := [⟪"x */ y"⟫].

Definition rw : perm := Perm true true.

(** A project tree: the script's directory holds [Foo.h], a hidden
    [.x.h], the license and [GameModel/], which holds [Bar.cpp] (a block
    after spaces) and [Bar.h] (no block). *)
Definition demo_fs (license : text) : fs :=
  list_to_map [
    (⟪"."⟫, Directory [⟪"Foo.h"⟫; ⟪".x.h"⟫; ⟪"code_license.txt"⟫; ⟪"GameModel"⟫]);
    (⟪"Foo.h"⟫, RegFile foo_h rw);
    (⟪".x.h"⟫, RegFile foo_h rw);
    (⟪"code_license.txt"⟫, RegFile license rw);
    (⟪"GameModel"⟫, Directory [⟪"Bar.cpp"⟫; ⟪"Bar.h"⟫]);
    (⟪"GameModel/Bar.cpp"⟫, RegFile ⟪"  /** b */ int y;"⟫ rw);
    (⟪"GameModel/Bar.h"⟫, RegFile ⟪"// none"⟫ rw)].

(** A tree whose script directory holds [A.h] and a directory [Dir.h]. *)
Definition dir_fs : fs :=
  list_to_map [
    (⟪"."⟫, Directory [⟪"A.h"⟫; ⟪"Dir.h"⟫; ⟪"code_license.txt"⟫]);
    (⟪"A.h"⟫, RegFile secret_h rw);
    (⟪"Dir.h"⟫, Directory []);
    (⟪"code_license.txt"⟫, RegFile spec_license rw)].

(** [p] is a regular file that may be read and written. *)
Definition rw_file_b (f : fs) (p : text) : bool :=
  match f !! p with Some (RegFile _ pm) => p_read pm && p_write pm | _ => false end.

(** The demo tree without its license file. *)
Definition no_license_fs : fs := delete ⟪"code_license.txt"⟫ (demo_fs spec_license).

(** The tree after one run on [demo_fs]. *)
Definition demo_after : fs := r_fs (run (demo_fs spec_license)).

(** ** The specification's examples *)

(** The first example of the specification: [Foo.h] with the
    two-line license becomes the header followed by the text after the old
    block's ["*/"]. *)
Example spec_example_foo :
  rewrite_text spec_lt ⟪"Foo.h"⟫ foo_h = Ok foo_h_expected.
Proof. vm_compute. reflexivity. Qed.

(** ** Behaviours the specification does not describe *)

(** [.+?] needs at least one byte, so an empty doc comment [/***/]
    is not a block: the match runs on to the next ["*/"] and the code in
    between ([int x;]) is deleted. *)
Example empty_doc_comment_eats_code :
  rewrite_text spec_lt ⟪"A.h"⟫ empty_doc_h =
  Ok (header ⟪"A.h"⟫ spec_lt ++ nl ++ ⟪"int y;"⟫).
Proof. vm_compute. reflexivity. Qed.

(** The greedy [\W*] takes the last ["/**"] of the leading non-word
    run: [/**/ /** doc */] is replaced as a whole, not only [/**/]. *)
Example greedy_prefix_takes_last_opener :
  rewrite_text spec_lt ⟪"A.h"⟫ two_blocks_h = Ok (header ⟪"A.h"⟫ spec_lt ++ ⟪" int x;"⟫).
Proof. vm_compute. reflexivity. Qed.

(** The header is a template, not a literal: a license line [a\nb]
    comes out as two lines, [\1] copies the old comment's text into the
    header, and [\2] raises [invalid group reference]. *)
Example license_backslash_is_template :
  rewrite_text (license_text [⟪"a"⟫ ++ [backslash] ++ ⟪"nb"⟫]) ⟪"A.h"⟫ secret_h =
    Ok (header ⟪"A.h"⟫ (⟪" * a"⟫ ++ nl ++ ⟪"b"⟫ ++ nl) ++ ⟪" x"⟫) ∧
  rewrite_text (license_text [[backslash] ++ ⟪"1"⟫]) ⟪"A.h"⟫ secret_h =
    Ok (header ⟪"A.h"⟫ (⟪" *  secret "⟫ ++ nl) ++ ⟪" x"⟫) ∧
  rewrite_text (license_text [[backslash] ++ ⟪"2"⟫]) ⟪"A.h"⟫ secret_h =
    Err (SreError ⟪"invalid group reference"⟫).
Proof. vm_compute. repeat split. Qed.

(** [\2] in the license raises when a match is expanded, so the run
    stops at the first found file that has a leading block (here the first
    file found): no file is rewritten and the script ends with the [sre]
    error.  A file without a block is returned unchanged before that. *)
Example license_group_reference_aborts_run :
  run (demo_fs ([backslash] ++ ⟪"2"⟫ ++ nl)) =
  Result (Raised (SreError ⟪"invalid group reference"⟫)) (demo_fs ([backslash] ++ ⟪"2"⟫ ++ nl)) [].
Proof. vm_compute. reflexivity. Qed.

(** [glob] also finds a directory named [Dir.h]; [open(..., 'r+')]
    raises on it and the run stops there, after [A.h] was rewritten. *)
Example directory_candidate_aborts_run :
  r_outcome (run dir_fs) = Raised (IOError EISDIR ⟪"Dir.h"⟫) ∧
  r_fs (run dir_fs) !! ⟪"A.h"⟫ = Some (RegFile (header ⟪"A.h"⟫ spec_lt ++ ⟪" x"⟫) rw).
Proof. vm_compute. split; reflexivity. Qed.

(** A license line holding ["*/"] ends the header early, and every run
    adds one more copy of the line's tail ([rewrite_text_closer_not_idempotent]
    in general). *)
Example closer_in_license_not_idempotent :
  let lt := license_text [⟪"x */ y"⟫] in
  ∃ r, rewrite_text lt ⟪"A.h"⟫ secret_h = Ok r ∧ rewrite_text lt ⟪"A.h"⟫ r ≠ Ok r.
Proof.
  intros lt. exists (header ⟪"A.h"⟫ lt ++ ⟪" x"⟫).
  split; [vm_compute; reflexivity|]. vm_compute. discriminate.
Qed.

(** ** The general theorems at concrete inputs *)

Lemma rw_file_b_sound (f : fs) (p : text) :
  rw_file_b f p = true →
  ∃ old pm, f !! p = Some (RegFile old pm) ∧ p_read pm = true ∧ p_write pm = true.
Proof.
  unfold rw_file_b. destruct (f !! p) as [[old pm|]|]; [|done|done].
  intros [Hr Hw]%andb_true_iff. by exists old, pm.
Qed.

Lemma spec_header_no_backslash (fn : text) :
  backslash ∉ fn → backslash ∉ header (basename fn) spec_lt.
Proof.
  intros Hfn. apply header_no_backslash.
  - intros Hb. apply Hfn. destruct (basename_split fn) as [_ [d ->]]. set_solver.
  - apply Forall_forall. by_eval.
Qed.

Lemma rewrite_text_block_witness :
  backslash ∉ header (basename ⟪"Foo.h"⟫) spec_lt ∧ leading_block foo_h 0 21 ∧
  rewrite_text spec_lt ⟪"Foo.h"⟫ foo_h = Ok (header (basename ⟪"Foo.h"⟫) spec_lt ++ drop (21 + 2) foo_h).
Proof.
  assert (backslash ∉ header (basename ⟪"Foo.h"⟫) spec_lt) as Hb
    by (apply spec_header_no_backslash; by_eval).
  assert (leading_block foo_h 0 21) as Hl by (apply leading_block_of_search; vm_compute; reflexivity).
  split; [done|]. split; [done|]. exact (rewrite_text_block spec_lt ⟪"Foo.h"⟫ foo_h 0 21 Hb Hl).
Defined.

Lemma rewrite_text_no_block_witness :
  backslash ∉ header (basename ⟪"Foo.h"⟫) spec_lt ∧ (∀ k, ¬ opener_ok no_block_h k) ∧
  rewrite_text spec_lt ⟪"Foo.h"⟫ no_block_h = Ok no_block_h.
Proof.
  assert (backslash ∉ header (basename ⟪"Foo.h"⟫) spec_lt) as Hb
    by (apply spec_header_no_backslash; by_eval).
  assert (∀ k, ¬ opener_ok no_block_h k) as Hn
    by (apply no_opener_of_search; vm_compute; reflexivity).
  split; [done|]. split; [done|]. exact (rewrite_text_no_block spec_lt ⟪"Foo.h"⟫ no_block_h Hb Hn).
Defined.

Lemma rewrite_text_idempotent_witness :
  backslash ∉ basename ⟪"Foo.h"⟫ ∧ (∃ c, c ∈ basename ⟪"Foo.h"⟫ ∧ is_word c = true) ∧
  (∀ l, l ∈ readlines spec_license → backslash ∉ l ∧ contains ⟪"*/"⟫ l = false) ∧
  rewrite_text (license_text (readlines spec_license)) ⟪"Foo.h"⟫ foo_h = Ok foo_h_expected ∧
  rewrite_text (license_text (readlines spec_license)) ⟪"Foo.h"⟫ foo_h_expected = Ok foo_h_expected.
Proof.
  assert (backslash ∉ basename ⟪"Foo.h"⟫) as H1 by by_eval.
  assert (∃ c, c ∈ basename ⟪"Foo.h"⟫ ∧ is_word c = true) as H2
    by (exists "F"%char; split; [by_eval|reflexivity]).
  assert (∀ l, l ∈ readlines spec_license → backslash ∉ l ∧ contains ⟪"*/"⟫ l = false) as H3
    by (apply Forall_forall; by_eval).
  assert (rewrite_text (license_text (readlines spec_license)) ⟪"Foo.h"⟫ foo_h = Ok foo_h_expected)
    as H4 by (vm_compute; reflexivity).
  split; [done|]. split; [done|]. split; [done|]. split; [done|].
  exact (rewrite_text_idempotent _ _ _ _ H1 H2 H3 H4).
Defined.

Lemma header_readlines_witness :
  newline ∉ ⟪"Foo.h"⟫ ∧
  readlines (header ⟪"Foo.h"⟫ (license_text (readlines spec_license))) =
  [⟪"/**"⟫ ++ [newline]; ⟪" * "⟫ ++ ⟪"Foo.h"⟫ ++ [newline]; ⟪" * "⟫ ++ [newline]] ++
  map license_line (readlines spec_license) ++ [hdr_close].
Proof.
  assert (newline ∉ ⟪"Foo.h"⟫) as H by by_eval.
  split; [done|]. exact (header_readlines spec_license ⟪"Foo.h"⟫ H).
Defined.

Lemma demo_fs_wf : fs_wf (demo_fs spec_license).
Proof. apply fs_wf_b_sound. vm_compute. reflexivity. Qed.

Lemma all_file_names_spec_witness :
  fs_wf (demo_fs spec_license) ∧
  all_file_names (demo_fs spec_license) =
  concat (map (λ '(d, e), candidates (demo_fs spec_license) d e) script_pairs).
Proof. split; [exact demo_fs_wf|exact (all_file_names_spec _ demo_fs_wf)]. Defined.

Lemma all_file_names_NoDup_witness :
  fs_wf (demo_fs spec_license) ∧ NoDup (all_file_names (demo_fs spec_license)).
Proof. split; [exact demo_fs_wf|exact (all_file_names_NoDup _ demo_fs_wf)]. Defined.

Lemma run_license_missing_witness :
  open_read ∅ license_path = Err (IOError ENOENT license_path) ∧
  run ∅ = Result (Raised (IOError ENOENT license_path)) ∅ [].
Proof.
  assert (open_read ∅ license_path = Err (IOError ENOENT license_path)) as H by reflexivity.
  split; [done|exact (run_license_missing ∅ _ H)].
Defined.

Lemma run_demo_finished : run (demo_fs spec_license) = Result Finished demo_after [].
Proof. vm_compute. reflexivity. Qed.

Lemma run_finished_spec_witness :
  fs_wf (demo_fs spec_license) ∧
  run (demo_fs spec_license) = Result Finished demo_after [] ∧
  ∃ data, open_read (demo_fs spec_license) license_path = Ok data ∧
    (∀ p, p ∈ all_file_names (demo_fs spec_license) → ∃ old pm m,
       demo_fs spec_license !! p = Some (RegFile old pm) ∧
       rewrite_text (license_text (readlines data)) p old = Ok m ∧
       demo_after !! p = Some (RegFile m pm)) ∧
    (∀ k, k ∉ all_file_names (demo_fs spec_license) → demo_after !! k = demo_fs spec_license !! k).
Proof.
  split; [exact demo_fs_wf|]. split; [exact run_demo_finished|].
  exact (run_finished_spec _ _ _ demo_fs_wf run_demo_finished).
Defined.

Lemma run_dir_raised :
  run dir_fs = Result (Raised (IOError EISDIR ⟪"Dir.h"⟫)) (r_fs (run dir_fs)) [].
Proof. vm_compute. reflexivity. Qed.

Lemma dir_fs_wf : fs_wf dir_fs.
Proof. apply fs_wf_b_sound. vm_compute. reflexivity. Qed.

Lemma run_aborted_witness :
  fs_wf dir_fs ∧
  run dir_fs = Result (Raised (IOError EISDIR ⟪"Dir.h"⟫)) (r_fs (run dir_fs)) [] ∧
  ((open_read dir_fs license_path = Err (IOError EISDIR ⟪"Dir.h"⟫) ∧ r_fs (run dir_fs) = dir_fs) ∨
  ∃ data pre p post, open_read dir_fs license_path = Ok data ∧
    all_file_names dir_fs = pre ++ p :: post ∧
    process_files (rewrite_text (license_text (readlines data))) pre dir_fs =
      (r_fs (run dir_fs), None) ∧
    rewrite_file (rewrite_text (license_text (readlines data))) (r_fs (run dir_fs)) p =
      Err (IOError EISDIR ⟪"Dir.h"⟫) ∧
    ∀ q, q ∈ p :: post → r_fs (run dir_fs) !! q = dir_fs !! q).
Proof.
  split; [exact dir_fs_wf|]. split; [exact run_dir_raised|].
  exact (run_aborted _ _ _ _ dir_fs_wf run_dir_raised).
Defined.

Lemma run_finishes_witness :
  fs_wf (demo_fs spec_license) ∧
  open_read (demo_fs spec_license) license_path = Ok spec_license ∧
  (∀ l, l ∈ readlines spec_license → backslash ∉ l) ∧
  (∀ p, p ∈ all_file_names (demo_fs spec_license) → backslash ∉ basename p ∧
     ∃ old pm, demo_fs spec_license !! p = Some (RegFile old pm) ∧
       p_read pm = true ∧ p_write pm = true) ∧
  r_outcome (run (demo_fs spec_license)) = Finished.
Proof.
  assert (open_read (demo_fs spec_license) license_path = Ok spec_license) as Hd
    by (vm_compute; reflexivity).
  assert (∀ l, l ∈ readlines spec_license → backslash ∉ l) as Hl
    by (apply Forall_forall; by_eval).
  assert (∀ p, p ∈ all_file_names (demo_fs spec_license) → backslash ∉ basename p ∧
     ∃ old pm, demo_fs spec_license !! p = Some (RegFile old pm) ∧
       p_read pm = true ∧ p_write pm = true) as Hp.
  { intros p Hp. split; [revert p Hp; apply Forall_forall; by_eval|].
    apply rw_file_b_sound. revert p Hp. apply Forall_forall. by_eval. }
  split; [exact demo_fs_wf|]. split; [done|]. split; [done|]. split; [done|].
  exact (run_finishes _ _ demo_fs_wf Hd Hl Hp).
Defined.

Lemma run_idempotent_witness :
  fs_wf (demo_fs spec_license) ∧
  open_read (demo_fs spec_license) license_path = Ok spec_license ∧
  (∀ l, l ∈ readlines spec_license → backslash ∉ l ∧ contains ⟪"*/"⟫ l = false) ∧
  (∀ p, p ∈ all_file_names (demo_fs spec_license) → backslash ∉ basename p) ∧
  run (demo_fs spec_license) = Result Finished demo_after [] ∧
  run demo_after = Result Finished demo_after [].
Proof.
  assert (open_read (demo_fs spec_license) license_path = Ok spec_license) as Hd
    by (vm_compute; reflexivity).
  assert (∀ l, l ∈ readlines spec_license → backslash ∉ l ∧ contains ⟪"*/"⟫ l = false) as Hl
    by (apply Forall_forall; by_eval).
  assert (∀ p, p ∈ all_file_names (demo_fs spec_license) → backslash ∉ basename p) as Hb
    by (apply Forall_forall; by_eval).
  split; [exact demo_fs_wf|]. split; [done|]. split; [done|]. split; [done|].
  split; [exact run_demo_finished|].
  exact (run_idempotent _ _ _ demo_fs_wf Hd Hl Hb run_demo_finished).
Defined.

Lemma run_exit_status_witness :
  fs_wf (demo_fs spec_license) ∧
  (exit_status (r_outcome (run (demo_fs spec_license))) = 0%Z ∨
   exit_status (r_outcome (run (demo_fs spec_license))) = 1%Z) ∧
  (exit_status (r_outcome (run (demo_fs spec_license))) = 0%Z ↔
     ∃ data, open_read (demo_fs spec_license) license_path = Ok data ∧
       can_finish (demo_fs spec_license) data).
Proof. split; [exact demo_fs_wf|exact (run_exit_status _ demo_fs_wf)]. Defined.

Lemma rewrite_text_closer_not_idempotent_witness :
  backslash ∉ basename ⟪"Foo.h"⟫ ∧ (∃ c, c ∈ basename ⟪"Foo.h"⟫ ∧ is_word c = true) ∧
  (∀ l, l ∈ closer_license → backslash ∉ l) ∧
  (∃ l, l ∈ closer_license ∧ contains ⟪"*/"⟫ l = true) ∧
  (∃ k j, leading_block foo_h k j) ∧
  rewrite_text (license_text closer_license) ⟪"Foo.h"⟫ foo_h =
    Ok (header ⟪"Foo.h"⟫ (license_text closer_license) ++ nl ++ ⟪"int x;"⟫) ∧
  ∃ r', rewrite_text (license_text closer_license) ⟪"Foo.h"⟫
          (header ⟪"Foo.h"⟫ (license_text closer_license) ++ nl ++ ⟪"int x;"⟫) = Ok r' ∧
        r' ≠ header ⟪"Foo.h"⟫ (license_text closer_license) ++ nl ++ ⟪"int x;"⟫ ∧
        length (header ⟪"Foo.h"⟫ (license_text closer_license) ++ nl ++ ⟪"int x;"⟫) < length r'.
Proof.
  assert (backslash ∉ basename ⟪"Foo.h"⟫) as Hb by by_eval.
  assert (∃ c, c ∈ basename ⟪"Foo.h"⟫ ∧ is_word c = true) as Hc
    by (exists "F"%char; split; [by_eval|reflexivity]).
  assert (∀ l, l ∈ closer_license → backslash ∉ l) as Hl by (apply Forall_forall; by_eval).
  assert (∃ l, l ∈ closer_license ∧ contains ⟪"*/"⟫ l = true) as Hcl
    by (exists ⟪"x */ y"⟫; split; [by_eval|reflexivity]).
  assert (∃ k j, leading_block foo_h k j) as Hblk
    by (exists 0, 21; apply leading_block_of_search; vm_compute; reflexivity).
  assert (rewrite_text (license_text closer_license) ⟪"Foo.h"⟫ foo_h =
    Ok (header ⟪"Foo.h"⟫ (license_text closer_license) ++ nl ++ ⟪"int x;"⟫)) as Hr
    by (vm_compute; reflexivity).
  do 6 (split; [done|]).
  exact (rewrite_text_closer_not_idempotent _ _ _ _ Hb Hc Hl Hcl Hblk Hr).
Defined.

Lemma rewrite_text_group_reference_witness :
  backslash ∉ basename ⟪"Foo.h"⟫ ∧
  rewrite_text (license_text ([] ++ [backslash; "2"%char] :: [])) ⟪"Foo.h"⟫ foo_h =
    Err (SreError ⟪"invalid group reference"⟫) ∧
  rewrite_text (license_text ([] ++ [backslash; "2"%char] :: [])) ⟪"Foo.h"⟫ no_block_h =
    Ok no_block_h.
Proof.
  assert (backslash ∉ basename ⟪"Foo.h"⟫) as Hb by by_eval.
  assert (∀ x, x ∈ @nil text ++ [] → backslash ∉ x) as Hx by set_solver.
  assert (strip [backslash; "2"%char] = [] ++ [backslash; "2"%char] ++ []) as Hs by reflexivity.
  assert (∀ c, head (@nil ascii) = Some c → is_digit c = false) as Hh by done.
  assert (∃ k j, leading_block foo_h k j) as Hblk
    by (exists 0, 21; apply leading_block_of_search; vm_compute; reflexivity).
  assert (∀ k, ¬ opener_ok no_block_h k) as Hn
    by (apply no_opener_of_search; vm_compute; reflexivity).
  split; [done|]. split.
  - apply (rewrite_text_group_reference [] [] _ [] [] _ foo_h "2"%char Hb Hx Hs);
      [set_solver|set_solver|done|done|done|done|done].
  - apply (rewrite_text_group_reference [] [] _ [] [] _ no_block_h "2"%char Hb Hx Hs);
      [set_solver|set_solver|done|done|done|done|done].
Defined.

Lemma run_contract_witness :
  fs_wf (demo_fs spec_license) ∧
  open_read (demo_fs spec_license) license_path = Ok spec_license ∧
  (∀ l, l ∈ readlines spec_license → backslash ∉ l) ∧
  (∀ p, p ∈ all_file_names (demo_fs spec_license) → backslash ∉ basename p) ∧
  run (demo_fs spec_license) = Result Finished demo_after [] ∧
  ∀ p, p ∈ all_file_names (demo_fs spec_license) → ∃ old pm,
    demo_fs spec_license !! p = Some (RegFile old pm) ∧
    ((∃ k j, leading_block old k j ∧
        demo_after !! p = Some (RegFile (header (basename p) spec_lt ++ drop (j + 2) old) pm)) ∨
     ((∀ k, ¬ opener_ok old k) ∧ demo_after !! p = Some (RegFile old pm))).
Proof.
  assert (open_read (demo_fs spec_license) license_path = Ok spec_license) as Hd
    by (vm_compute; reflexivity).
  assert (∀ l, l ∈ readlines spec_license → backslash ∉ l) as Hl
    by (apply Forall_forall; by_eval).
  assert (∀ p, p ∈ all_file_names (demo_fs spec_license) → backslash ∉ basename p) as Hb
    by (apply Forall_forall; by_eval).
  split; [exact demo_fs_wf|]. split; [done|]. split; [done|]. split; [done|].
  split; [exact run_demo_finished|].
  exact (run_contract _ _ _ demo_fs_wf Hd Hl Hb run_demo_finished).
Defined.

(** Without the license file: the whole outcome of the process. *)
Lemma run_license_missing_process_witness :
  no_license_fs !! ⟪"code_license.txt"⟫ = None ∧
  r_fs (run (no_license_fs)) = no_license_fs ∧
  r_stdout (run (no_license_fs)) = [] ∧
  exit_status (r_outcome (run (no_license_fs))) = 1%Z ∧
  stderr_last (run (no_license_fs)) =
    Some ⟪"IOError: [Errno 2] No such file or directory: './code_license.txt'"⟫.
Proof.
  assert (no_license_fs !! ⟪"code_license.txt"⟫ = None) as H
    by (vm_compute; reflexivity).
  split; [done|]. exact (run_license_missing_process _ H).
Defined.

(** The diagnostic for a directory among the candidates. *)
Example dir_candidate_traceback :
  stderr_last (run dir_fs) = Some ⟪"IOError: [Errno 21] Is a directory: 'Dir.h'"⟫ ∧
  exit_status (r_outcome (run dir_fs)) = 1%Z.
Proof. vm_compute. split; reflexivity. Qed.

(** [exit(-1)] of line 21 would give the shell status 255. *)
Example exit_minus_one : exit_status (Exited (-1)) = 255%Z.
Proof. reflexivity. Qed.

(** [repr] picks double quotes for a name with a single quote in it. *)
Example repr_quotes :
  py_repr (⟪"a'b"⟫ ++ nl) = ["034"%char] ++ ⟪"a'b"⟫ ++ [backslash] ++ ⟪"n"⟫ ++ ["034"%char].
Proof. vm_compute. reflexivity. Qed.

Lemma rewrite_text_short_witness :
  backslash ∉ header (basename ⟪"Foo.h"⟫) spec_lt ∧
  rewrite_text spec_lt ⟪"Foo.h"⟫ ⟪"/**x/"⟫ = Ok ⟪"/**x/"⟫ ∧
  rewrite_text spec_lt ⟪"Foo.h"⟫ ⟪"/**x*/"⟫ = Ok (header (basename ⟪"Foo.h"⟫) spec_lt).
Proof.
  assert (backslash ∉ header (basename ⟪"Foo.h"⟫) spec_lt) as Hb
    by (apply spec_header_no_backslash; by_eval).
  destruct (rewrite_text_short spec_lt ⟪"Foo.h"⟫ Hb) as [Hs H6].
  split; [done|]. split; [apply Hs; cbn; lia|exact H6].
Defined.

(** The specification's license with Windows line endings gives the
    specification's license text. *)
Example crlf_license_same_text :
  license_text (readlines (crlf spec_license)) = spec_lt ∧
  readlines (crlf spec_license) =
    [⟪"Copyright 2024"⟫ ++ [carriage_return] ++ nl; ⟪"All rights reserved."⟫ ++ [carriage_return] ++ nl].
Proof. vm_compute. split; reflexivity. Qed.

(** A source file with Windows line endings gets a header whose lines end
    in a bare ["\n"]: the rewritten file mixes the two conventions. *)
Example crlf_source_mixed_endings :
  rewrite_text spec_lt ⟪"Foo.h"⟫ (crlf foo_h) =
    Ok (foo_h_expected_lf ++ [carriage_return] ++ nl ++ ⟪"int x;"⟫).
Proof. vm_compute. reflexivity. Qed.

End Examples.
